(** * The lwIP/RIOT throughput test pair of [src/app/ipref.c]

    A shallow embedding of [test_tcp_server] and [test_tcp_client].  Both
    routines talk to the sock layer (listen, accept, read, write, connect,
    disconnect), to the microsecond timer and to the console.  The sock
    layer is not part of the repository: its answers are taken from a
    [provider], and every call is recorded, with its answer, in a trace. *)

From Stdlib Require Import ZArith List String Ascii Bool Lia.
From Stdlib Require Import QArith Qabs Qpower Lqa.
From Stdlib Require Import Floats.SpecFloat.
Import ListNotations.

Local Open Scope Z_scope.

(** ** The transport provider and the trace of calls *)

(** What the environment answers.  [accept_res k] is the value returned by
    the k-th call of [sock_tcp_accept] (counting from 0), and so on;
    [read_data k] is what the k-th read stores into the caller's buffer;
    [clock k] is the k-th reading of the free-running timer. *)
Record provider : Type := {
  listen_res : Z;
  accept_res : nat -> Z;
  read_res : nat -> Z;
  read_data : nat -> list Z;
  write_res : nat -> Z;
  connect_res : Z;
  clock : nat -> Z
}.

Inductive event : Type :=
| Ev_listen (port : Z) (queue_len : Z) (flags : Z) (r : Z)
| Ev_accept (r : Z)
| Ev_read (max_len : Z) (r : Z)
| Ev_write (data : list Z) (r : Z)
| Ev_connect (port : Z) (r : Z)
| Ev_disconnect
| Ev_addr_from_str (s : string)
| Ev_now (t : Z)
| Ev_puts (s : string)
| Ev_printf (fmt : string) (f : spec_float).

(** The globals of ipref.c that matter ([buf]) and how many answers of each
    kind the provider has already given. *)
Record state : Type := {
  buf : list Z;
  n_accept : nat;
  n_read : nat;
  n_write : nat;
  n_now : nat
}.

Definition set_buf (b : list Z) (s : state) : state :=
  {| buf := b; n_accept := n_accept s; n_read := n_read s;
     n_write := n_write s; n_now := n_now s |}.
Definition next_accept (s : state) : state :=
  {| buf := buf s; n_accept := S (n_accept s); n_read := n_read s;
     n_write := n_write s; n_now := n_now s |}.
Definition next_read (s : state) : state :=
  {| buf := buf s; n_accept := n_accept s; n_read := S (n_read s);
     n_write := n_write s; n_now := n_now s |}.
Definition next_write (s : state) : state :=
  {| buf := buf s; n_accept := n_accept s; n_read := n_read s;
     n_write := S (n_write s); n_now := n_now s |}.
Definition next_now (s : state) : state :=
  {| buf := buf s; n_accept := n_accept s; n_read := n_read s;
     n_write := n_write s; n_now := S (n_now s) |}.

(** ** A small monad: state, trace and fuel *)

Inductive outcome (A : Type) : Type :=
| Done (a : A)
| OutOfFuel.
Arguments Done {A} a.
Arguments OutOfFuel {A}.

Definition M (A : Type) : Type := state -> outcome A * state * list event.

Definition ret {A : Type} (a : A) : M A := fun s => (Done a, s, []).

Definition bind {A B : Type} (m : M A) (k : A -> M B) : M B :=
  fun s =>
    match m s with
    | (Done a, s1, t1) =>
        match k a s1 with
        | (o, s2, t2) => (o, s2, t1 ++ t2)
        end
    | (OutOfFuel, s1, t1) => (OutOfFuel, s1, t1)
    end.

Definition out_of_fuel {A : Type} : M A := fun s => (OutOfFuel, s, []).

Declare Scope io_scope.
Delimit Scope io_scope with io.
Notation "x <- m ;; k" := (bind m (fun x => k))
  (at level 61, m at next level, right associativity) : io_scope.
Notation "m ;; k" := (bind m (fun _ => k))
  (at level 61, right associativity) : io_scope.
Local Open Scope io_scope.

Definition result {A : Type} (r : outcome A * state * list event) : outcome A :=
  fst (fst r).
Definition final {A : Type} (r : outcome A * state * list event) : state :=
  snd (fst r).
Definition trace {A : Type} (r : outcome A * state * list event) : list event :=
  snd r.

(** ** Machine integers *)

Definition UINT32_MOD : Z := 2 ^ 32.
Definition UINT64_MOD : Z := 2 ^ 64.
Definition u32 (z : Z) : Z := z mod UINT32_MOD.
Definition u64 (z : Z) : Z := z mod UINT64_MOD.
Definition u8 (z : Z) : Z := z mod 256.

(** ** Single-precision arithmetic

    [float] on the target is IEEE 754 binary32: 24 bits of precision,
    exponent of the infinities 128.  The operations are those of the
    standard library's specification of IEEE arithmetic, at that format. *)
Module F32.
Definition prec : Z := 24.
Definition emax : Z := 128.
Definition of_Z (n : Z) : spec_float := binary_normalize prec emax n 0 false.
Definition mul : spec_float -> spec_float -> spec_float := SFmul prec emax.
Definition div : spec_float -> spec_float -> spec_float := SFdiv prec emax.

(** The rational a finite float stands for. *)
Definition pow2 (e : Z) : Q := Qpower 2 e.
Definition F2Q (m e : Z) : Q := inject_Z m * pow2 e.
Definition to_Q (f : spec_float) : option Q :=
  match f with
  | S754_zero _ => Some 0%Q
  | S754_finite s m e => Some (F2Q (if s then Z.neg m else Z.pos m) e)
  | S754_infinity _ | S754_nan => None
  end.

(** Where a real x lies with respect to the float grid of exponent e:
    on the point m 2^e, or strictly between m 2^e and (m+1) 2^e, below, at
    or above the middle.  This is what a [location] stands for in the
    library's rounding functions. *)
Definition mid (m e : Z) : Q := F2Q m e + (1 # 2) * pow2 e.

Definition inb (m e : Z) (l : location) (x : Q) : Prop :=
  match l with
  | loc_Exact => x == F2Q m e
  | loc_Inexact Lt => F2Q m e < x /\ x < mid m e
  | loc_Inexact Eq => x == mid m e
  | loc_Inexact Gt => mid m e < x /\ x < F2Q (m + 1) e
  end%Q.

(** Half a unit in the last place, relative to the value. *)
Definition ulp_half : Q := 1 # 2 ^ 24.

(** A positive normal float of value q with exponent between lo and hi. *)
Definition represents (f : spec_float) (q : Q) (lo hi : Z) : Prop :=
  exists m e,
    f = S754_finite false m e /\ 2 ^ 23 <= Zpos m < 2 ^ 24 /\ lo <= e <= hi /\
    q = F2Q (Zpos m) e.

(** q is x rounded: within a relative error of 2^-24. *)
Definition rounds (q x : Q) : Prop :=
  ((1 - ulp_half) * x <= q /\ q <= (1 + ulp_half) * x)%Q.
End F32.

(** ** The sock calls, the timer and the console *)

Section Calls.
Variable P : provider.

Definition sock_tcp_listen (port queue_len flags : Z) : M Z :=
  fun s => let r := listen_res P in (Done r, s, [Ev_listen port queue_len flags r]).

Definition sock_tcp_accept : M Z :=
fun s =>
  let r := accept_res P (n_accept s) in
  (Done r, next_accept s, [Ev_accept r]).

(** A read that succeeds with r bytes overwrites the first r bytes of the
    buffer it was given (here always the global [buf]). *)
Definition sock_tcp_read (max_len : Z) : M Z :=
fun s =>
  let r := read_res P (n_read s) in
  let got := firstn (Z.to_nat (Z.min r max_len)) (read_data P (n_read s)) in
  (Done r,
   next_read (if r <? 0 then s else set_buf (got ++ skipn (List.length got) (buf s)) s),
   [Ev_read max_len r]).

(** A write only reads its data. *)
Definition sock_tcp_write (data : list Z) (len : Z) : M Z :=
fun s =>
  let r := write_res P (n_write s) in
  (Done r, next_write s, [Ev_write (firstn (Z.to_nat len) data) r]).

Definition sock_tcp_connect (port : Z) : M Z :=
fun s => let r := connect_res P in (Done r, s, [Ev_connect port r]).

Definition sock_tcp_disconnect : M unit :=
fun s => (Done tt, s, [Ev_disconnect]).

Definition ipv4_addr_from_str (a : string) : M unit :=
fun s => (Done tt, s, [Ev_addr_from_str a]).

(** [xtimer_now_usec] returns a [uint32_t]. *)
Definition xtimer_now_usec : M Z :=
fun s =>
  let t := u32 (clock P (n_now s)) in
  (Done t, next_now s, [Ev_now t]).

Definition puts (msg : string) : M unit :=
fun s => (Done tt, s, [Ev_puts msg]).

Definition printf (fmt : string) (f : spec_float) : M unit :=
fun s => (Done tt, s, [Ev_printf fmt f]).

Definition get_buf : M (list Z) := fun s => (Done (buf s), s, []).

(** [memset(buf, c, n)] on the global buffer. *)
Definition memset_buf (c : Z) (n : Z) : M unit :=
fun s =>
  (Done tt,
   set_buf (repeat (u8 c) (Z.to_nat n) ++ skipn (Z.to_nat n) (buf s)) s,
   []).
End Calls.

(** ** ipref.c *)

Definition SOCK_QUEUE_LEN : Z := 1.
Definition sizeof_buf : Z := 2 * 1024.

Definition dquote : string := String (ascii_of_nat 34) EmptyString.
Definition crlf : string :=
  String (ascii_of_nat 13) (String (ascii_of_nat 10) EmptyString).

(** The string literal [Hello!] with its terminating NUL: [sizeof] is 7. *)
Definition hello : list Z := [72; 101; 108; 108; 111; 33; 0].
Definition sizeof_hello : Z := 7.

Definition msg_listen_error : string := "Error creating listening queue".
Definition msg_listening : string := "Listening on port 12345".
Definition msg_accept_error : string := "Error accepting new sock".
Definition msg_reading : string := "Reading data".
Definition msg_disconnected : string := "Disconnected".
Definition msg_connect_error : string := "Error connecting sock".
Definition msg_sending : string := "Sending " ++ dquote ++ "Hello!" ++ dquote.
Definition msg_write_error : string := "Errored on write".
Definition fmt_speed : string := "send speed = %.4f Mbps!" ++ crlf.

Section Server.
Variable P : provider.

(** The inner loop of the server, lines 42-67: [while (read_res >= 0)]. *)
Fixpoint drain_loop (fuel : nat) (read_res : Z) : M unit :=
  if read_res >=? 0 then
    match fuel with
    | O => out_of_fuel
    | S fuel' =>
        r <- sock_tcp_read P sizeof_buf ;;
        if r <? 0 then
          puts msg_disconnected          (* break *)
        else
          drain_loop fuel' r
    end
  else ret tt.

(** The outer [while (1)], lines 29-70. *)
Fixpoint server_loop (fuel : nat) : M Z :=
  match fuel with
  | O => out_of_fuel
  | S fuel' =>
      r <- sock_tcp_accept P ;;
      (if r <? 0 then
         puts msg_accept_error
       else
         puts msg_reading ;;
         drain_loop fuel' 0 ;;
         sock_tcp_disconnect) ;;
      server_loop fuel'
  end.

Definition test_tcp_server (fuel : nat) : M Z :=
  r <- sock_tcp_listen P 12345 SOCK_QUEUE_LEN 0 ;;
  if r <? 0 then
    puts msg_listen_error ;;
    ret 1
  else
    puts msg_listening ;;
    server_loop fuel.
End Server.

(** The locals of [test_tcp_client]. *)
Record client_vars : Type := {
  res : Z;        (* int *)
  sentlen : Z;    (* uint64_t *)
  tick1 : Z;      (* uint32_t *)
  tick2 : Z       (* uint32_t *)
}.

(** Line 109:
    [(float)sentlen * 8 * 1000 * 1000 / 1024 / 1024 / (tick2 - tick1)],
    every operation in single precision, left to right. *)
Definition send_speed (sentlen dt : Z) : spec_float :=
  F32.div
    (F32.div
       (F32.div
          (F32.mul
             (F32.mul
                (F32.mul (F32.of_Z sentlen) (F32.of_Z 8))
                (F32.of_Z 1000))
             (F32.of_Z 1000))
          (F32.of_Z 1024))
       (F32.of_Z 1024))
    (F32.of_Z dt).

Section Client.
Variable P : provider.

(** Lines 106-113: the head of the stream loop reads the clock and, every
    two seconds, reports and starts a new window. *)
Definition report_check (v : client_vars) : M client_vars :=
t <- xtimer_now_usec P ;;                               (* tick2 = ... *)
if u32 (t - tick1 v) >=? 2000 * 1000 then
  let f := send_speed (sentlen v) (u32 (t - tick1 v)) in
  printf fmt_speed f ;;
  ret {| res := res v; sentlen := 0; tick1 := t; tick2 := t |}
else
  ret {| res := res v; sentlen := sentlen v; tick1 := tick1 v; tick2 := t |}.

(** Lines 114-121: one write of the whole buffer.  The left result is the
    [break], the right one the next iteration. *)
Definition stream_write (v : client_vars) : M (client_vars + client_vars) :=
b <- get_buf ;;
r <- sock_tcp_write P b sizeof_buf ;;
if r <? 0 then
  puts msg_write_error ;;
  ret (inl {| res := r; sentlen := sentlen v; tick1 := tick1 v; tick2 := tick2 v |})
else
  ret (inr {| res := r; sentlen := u64 (sentlen v + sizeof_buf);
              tick1 := tick1 v; tick2 := tick2 v |}).

(** The [while (1)] of lines 104-122. *)
Fixpoint stream_loop (fuel : nat) (v : client_vars) : M client_vars :=
match fuel with
| O => out_of_fuel
| S fuel' =>
    v1 <- report_check v ;;
    w <- stream_write v1 ;;
    match w with
    | inl v2 => ret v2
    | inr v2 => stream_loop fuel' v2
    end
end.

(** Lines 103-122: the else branch of the handshake test. *)
Definition stream_phase (fuel : nat) (v : client_vars) : M client_vars :=
  t <- xtimer_now_usec P ;;
  stream_loop fuel {| res := res v; sentlen := sentlen v; tick1 := t; tick2 := tick2 v |}.

Definition test_tcp_client (fuel : nat) : M Z :=
  memset_buf 97 sizeof_buf ;;
  ipv4_addr_from_str "192.168.1.102" ;;
  c <- sock_tcp_connect P 12344 ;;
  if c <? 0 then
    puts msg_connect_error ;;
    ret 1
  else
    puts msg_sending ;;
    r <- sock_tcp_write P hello sizeof_hello ;;
    v <- (if r <? 0 then
            puts msg_write_error ;;
            ret {| res := r; sentlen := 0; tick1 := 0; tick2 := 0 |}
          else
            stream_phase fuel {| res := r; sentlen := 0; tick1 := 0; tick2 := 0 |}) ;;
    sock_tcp_disconnect ;;
    ret (res v).
End Client.

(** The state a routine starts from: an arbitrary buffer, no answer used. *)
Definition init (b : list Z) : state :=
  {| buf := b; n_accept := 0; n_read := 0; n_write := 0; n_now := 0 |}.

(** ** Observations on traces *)

Definition is_write (e : event) : bool :=
  match e with Ev_write _ _ => true | _ => false end.
Definition is_disconnect (e : event) : bool :=
  match e with Ev_disconnect => true | _ => false end.
Definition is_accept (e : event) : bool :=
  match e with Ev_accept _ => true | _ => false end.
Definition is_read (e : event) : bool :=
  match e with Ev_read _ _ => true | _ => false end.
Definition is_accepted (e : event) : bool :=
  match e with Ev_accept r => 0 <=? r | _ => false end.

Definition calls (f : event -> bool) (t : list event) : nat :=
  List.length (filter f t).

(** Connections accepted and not yet disconnected are the difference of
    these two counts. *)
Definition accepted (t : list event) : nat := calls is_accepted t.
Definition disconnected (t : list event) : nat := calls is_disconnect t.

Definition is_now (e : event) : bool :=
  match e with Ev_now _ => true | _ => false end.

(** The writes of the stream phase: all but the first, which is the
    handshake. *)
Definition stream_writes (t : list event) : list event := tl (filter is_write t).

(** What [memset(buf, 97, sizeof(buf))] leaves in the buffer. *)
Definition filler : list Z := repeat 97 (Z.to_nat sizeof_buf).

(** ** Throughput reports

    A report as an observer of the trace sees it: the results of the writes
    that succeeded since the previous report (or since the stream phase
    began), the time between the clock reading of the previous report (or
    the first reading) and the latest reading, as the 32-bit timer measures
    it, and the rate printed. *)
Record report : Type := {
  r_writes : list Z;
  r_dt : Z;
  r_rate : spec_float
}.

Fixpoint reports (tref tlast : Z) (ws : list Z) (t : list event) : list report :=
  match t with
  | [] => []
  | Ev_now t' :: rest => reports tref t' ws rest
  | Ev_write _ r :: rest => reports tref tlast (if r <? 0 then ws else ws ++ [r]) rest
  | Ev_printf _ f :: rest =>
      {| r_writes := ws; r_dt := u32 (tlast - tref); r_rate := f |}
      :: reports tlast tlast [] rest
  | _ :: rest => reports tref tlast ws rest
  end.

(** The stream phase begins at the first clock reading. *)
Fixpoint client_reports (t : list event) : list report :=
  match t with
  | [] => []
  | Ev_now t0 :: rest => reports t0 t0 [] rest
  | _ :: rest => client_reports rest
  end.

Definition sum_Z (l : list Z) : Z := fold_right Z.add 0 l.

(** The rate of section 8, item 1, in Mbit/s:
    bytes x 8 x 10^6 / (1024 x 1024 x dt), for dt in microseconds. *)
Definition rate (bytes dt : Z) : Q :=
  inject_Z (bytes * 8 * 10 ^ 6) / inject_Z (1024 * 1024 * dt).

(** Floating-point tolerance: a relative error of at most 2^-20. *)
Definition tolerance : Q := 1 # (2 ^ 20).

Definition close_to (f : spec_float) (x : Q) : Prop :=
  exists q, F32.to_Q f = Some q /\ (Qabs (q - x) <= tolerance * x)%Q.

(** What the head of the loop does to the locals and to the trace when the
    clock reads t, and what a write that returns r does to the locals. *)
Definition report_due (v : client_vars) (t : Z) : bool :=
  u32 (t - tick1 v) >=? 2000 * 1000.
Definition after_report (v : client_vars) (t : Z) : client_vars :=
  if report_due v t then {| res := res v; sentlen := 0; tick1 := t; tick2 := t |}
  else {| res := res v; sentlen := sentlen v; tick1 := tick1 v; tick2 := t |}.
Definition report_events (v : client_vars) (t : Z) : list event :=
  if report_due v t
  then [Ev_printf fmt_speed (send_speed (sentlen v) (u32 (t - tick1 v)))]
  else [].
Definition wrote (v : client_vars) (r : Z) : client_vars :=
  {| res := r; sentlen := u64 (sentlen v + sizeof_buf); tick1 := tick1 v; tick2 := tick2 v |}.
Definition broke (v : client_vars) (r : Z) : client_vars :=
  {| res := r; sentlen := sentlen v; tick1 := tick1 v; tick2 := tick2 v |}.

(** The state after the memset of line 87. *)
Definition memset_state (s : state) : state :=
  set_buf (repeat (u8 97) (Z.to_nat sizeof_buf) ++ skipn (Z.to_nat sizeof_buf) (buf s)) s.

(** The calls shared by the two paths on which connect succeeded. *)
Definition connected_prefix (P : provider) : list event :=
  [Ev_addr_from_str "192.168.1.102"; Ev_connect 12344 (connect_res P);
   Ev_puts msg_sending].

(** A report is as the code computes it when the rate printed is line 109
    evaluated on 2048 bytes per successful write of the window. *)
Definition report_ok (r : report) : Prop :=
  2000 * 1000 <= r_dt r < UINT32_MOD /\
  r_rate r = send_speed (u64 (sizeof_buf * Z.of_nat (List.length (r_writes r)))) (r_dt r).

(** ** The server's control states

    The states of section 4 of the specification, refined by the points
    between two calls.  [server_step] is the observer that follows a trace
    of the server; it is stuck ([None]) on any event the state does not
    allow. *)
Inductive server_state : Type :=
| Idle | ListenFailed | Terminated | Listening
| Accepting | AcceptFailed | Accepted | Draining | ReadFailed | Closing.

Definition server_step (q : server_state) (e : event) : option server_state :=
  match q, e with
  | Idle, Ev_listen _ _ _ r => Some (if r <? 0 then ListenFailed else Listening)
  | ListenFailed, Ev_puts m => if String.eqb m msg_listen_error then Some Terminated else None
  | Listening, Ev_puts m => if String.eqb m msg_listening then Some Accepting else None
  | Accepting, Ev_accept r => Some (if r <? 0 then AcceptFailed else Accepted)
  | AcceptFailed, Ev_puts m => if String.eqb m msg_accept_error then Some Accepting else None
  | Accepted, Ev_puts m => if String.eqb m msg_reading then Some Draining else None
  | Draining, Ev_read _ r => Some (if r <? 0 then ReadFailed else Draining)
  | ReadFailed, Ev_puts m => if String.eqb m msg_disconnected then Some Closing else None
  | Closing, Ev_disconnect => Some Accepting
  | _, _ => None
  end.

Fixpoint server_run (q : server_state) (t : list event) : option server_state :=
  match t with
  | [] => Some q
  | e :: t' =>
      match server_step q e with
      | Some q' => server_run q' t'
      | None => None
      end
  end.

(** Does the server own a connection in this state? *)
Definition holds_connection (q : server_state) : bool :=
  match q with
  | Accepted | Draining | ReadFailed | Closing => true
  | _ => false
  end.

(** The points where a finite observation of the server can stop: between
    two rounds, or inside a drain loop. *)
Definition paused (o : option server_state) : bool :=
  match o with
  | Some Accepting | Some Draining => true
  | _ => false
  end.

(** What n consecutive failed accepts, from the k-th on, leave in the
    trace. *)
Fixpoint failed_accepts (P : provider) (k n : nat) : list event :=
  match n with
  | O => []
  | S n' =>
      Ev_accept (accept_res P k) :: Ev_puts msg_accept_error :: failed_accepts P (S k) n'
  end.

(** ** Providers for the scenarios of section 8 *)

Module Scenario.
Definition quiet : provider :=
  {| listen_res := 0; accept_res := fun _ => 0; read_res := fun _ => 0;
     read_data := fun _ => []; write_res := fun _ => 0; connect_res := 0;
     clock := fun _ => 0 |}.

(** connect fails *)
Definition refused : provider :=
  {| listen_res := 0; accept_res := fun _ => 0; read_res := fun _ => 0;
     read_data := fun _ => []; write_res := fun _ => 0; connect_res := -1;
     clock := fun _ => 0 |}.

(** listen fails *)
Definition port_busy : provider :=
  {| listen_res := -98; accept_res := fun _ => 0; read_res := fun _ => 0;
     read_data := fun _ => []; write_res := fun _ => 0; connect_res := 0;
     clock := fun _ => 0 |}.

(** three failed accepts, then a peer that sends twice five bytes and
    closes *)
Definition flaky_accept : provider :=
  {| listen_res := 0;
     accept_res := fun k => if (k <? 3)%nat then -1 else 0;
     read_res := fun k => if (k <? 2)%nat then 5 else -1;
     read_data := fun _ => [1; 2; 3; 4; 5];
     write_res := fun _ => 0; connect_res := 0; clock := fun _ => 0 |}.

(** the handshake write fails *)
Definition no_handshake : provider :=
  {| listen_res := 0; accept_res := fun _ => 0; read_res := fun _ => 0;
     read_data := fun _ => []; write_res := fun _ => -1; connect_res := 0;
     clock := fun _ => 0 |}.

(** handshake and four stream writes succeed, the fifth stream write
    fails; the clock advances by a millisecond per reading *)
Definition fifth_write_fails : provider :=
  {| listen_res := 0; accept_res := fun _ => 0; read_res := fun _ => 0;
     read_data := fun _ => [];
     write_res := fun k => if (k <? 1)%nat then 7 else if (k <? 5)%nat then 2048 else -1;
     connect_res := 0;
     clock := fun k => 1000 * Z.of_nat k |}.
(** the first stream write is short (1000 of 2048 bytes), the report comes
    two seconds after the stream began, and the next write fails *)
Definition short_write : provider :=
  {| listen_res := 0; accept_res := fun _ => 0; read_res := fun _ => 0;
     read_data := fun _ => [];
     write_res := fun k => match k with 0%nat => 7 | 1%nat => 1000 | _ => -1 end;
     connect_res := 0;
     clock := fun k => if (k <? 2)%nat then 0 else 2000000 |}.

(** the same with a complete first stream write *)
Definition one_window : provider :=
  {| listen_res := 0; accept_res := fun _ => 0; read_res := fun _ => 0;
     read_data := fun _ => [];
     write_res := fun k => match k with 0%nat => 7 | 1%nat => 2048 | _ => -1 end;
     connect_res := 0;
     clock := fun k => if (k <? 2)%nat then 0 else 2000000 |}.
End Scenario.

(** ** Further observations *)

Definition is_listen (e : event) : bool :=
  match e with Ev_listen _ _ _ _ => true | _ => false end.
Definition is_connect (e : event) : bool :=
  match e with Ev_connect _ _ => true | _ => false end.
Definition is_printf (e : event) : bool :=
  match e with Ev_printf _ _ => true | _ => false end.
Definition is_failed_accept (e : event) : bool :=
  match e with Ev_accept r => r <? 0 | _ => false end.
Definition is_failed_read (e : event) : bool :=
  match e with Ev_read _ r => r <? 0 | _ => false end.
Definition is_puts_of (m : string) (e : event) : bool :=
  match e with Ev_puts s => String.eqb s m | _ => false end.

(** The n reads, from the k-th on, of a drain loop that is still going. *)
Fixpoint drain_reads (P : provider) (k n : nat) : list event :=
  match n with
  | O => []
  | S n' => Ev_read sizeof_buf (read_res P k) :: drain_reads P (S k) n'
  end.

(** Steps of the server's observer that are still owed to the trace: a
    failed read not yet followed by its disconnect, and an answer not yet
    followed by its message. *)
Definition owes_disconnect (q : server_state) : nat :=
  match q with ReadFailed | Closing => 1 | _ => 0 end.
Definition owes_message (m : string) (q : server_state) : nat :=
  match q with
  | AcceptFailed => if String.eqb m msg_accept_error then 1 else 0
  | Accepted => if String.eqb m msg_reading then 1 else 0
  | ReadFailed => if String.eqb m msg_disconnected then 1 else 0
  | _ => 0
  end.

Module Scenario2.
(** a peer that never closes: every read returns 0 *)
Definition idle_peer : provider :=
  {| listen_res := 0; accept_res := fun _ => 0; read_res := fun _ => 0;
     read_data := fun _ => []; write_res := fun _ => 0; connect_res := 0;
     clock := fun _ => 0 |}.

(** the timer overflows between the two readings of a window *)
Definition wrapping_clock : provider :=
  {| listen_res := 0; accept_res := fun _ => 0; read_res := fun _ => 0;
     read_data := fun _ => []; write_res := fun _ => 2048; connect_res := 0;
     clock := fun k => if (k <? 1)%nat then 4294967290 else 4294967296 + 2000000 |}.

(** one peer, which sends twice five bytes and closes; no other ever
    connects *)
Definition one_client : provider :=
  {| listen_res := 0;
     accept_res := fun k => if (k <? 1)%nat then 0 else -1;
     read_res := fun k => if (k <? 2)%nat then 5 else -1;
     read_data := fun _ => [1; 2; 3; 4; 5];
     write_res := fun _ => 0; connect_res := 0; clock := fun _ => 0 |}.
End Scenario2.

(** * Properties *)

(** ** How the monad runs *)

Lemma trace_bind {A B : Type} (m : M A) (k : A -> M B) s :
  trace (bind m k s) =
  match result (m s) with
  | Done a => trace (m s) ++ trace (k a (final (m s)))
  | OutOfFuel => trace (m s)
  end.
Proof.
  unfold bind, trace, result, final. destruct (m s) as [[[a|] s1] t1]; [|reflexivity].
  simpl. destruct (k a s1) as [[o s2] t2]. reflexivity.
Qed.

Lemma result_bind {A B : Type} (m : M A) (k : A -> M B) s :
  result (bind m k s) =
  match result (m s) with
  | Done a => result (k a (final (m s)))
  | OutOfFuel => OutOfFuel
  end.
Proof.
  unfold bind, result, final. destruct (m s) as [[[a|] s1] t1]; [|reflexivity].
  simpl. destruct (k a s1) as [[o s2] t2]. reflexivity.
Qed.

Lemma final_bind {A B : Type} (m : M A) (k : A -> M B) s :
  final (bind m k s) =
  match result (m s) with
  | Done a => final (k a (final (m s)))
  | OutOfFuel => final (m s)
  end.
Proof.
  unfold bind, result, final. destruct (m s) as [[[a|] s1] t1]; [|reflexivity].
  simpl. destruct (k a s1) as [[o s2] t2]. reflexivity.
Qed.

(** One step of symbolic execution: split the binds and run the calls. *)
Ltac run1 :=
  rewrite ?trace_bind, ?result_bind, ?final_bind;
  cbn [result final trace fst snd
       sock_tcp_listen sock_tcp_accept sock_tcp_read sock_tcp_write
       sock_tcp_connect sock_tcp_disconnect ipv4_addr_from_str
       xtimer_now_usec puts printf get_buf memset_buf ret out_of_fuel].

Lemma calls_app f t1 t2 : calls f (t1 ++ t2) = (calls f t1 + calls f t2)%nat.
Proof. unfold calls. rewrite filter_app, length_app. reflexivity. Qed.

(** ** Setup failures *)

Lemma client_connect_failed (P : provider) (fuel : nat) (s : state) :
  connect_res P < 0 ->
  test_tcp_client P fuel s =
  (Done 1, memset_state s,
   [Ev_addr_from_str "192.168.1.102"; Ev_connect 12344 (connect_res P);
    Ev_puts msg_connect_error]).
Proof.
  intros H. apply Z.ltb_lt in H.
  unfold test_tcp_client, bind, memset_buf, ipv4_addr_from_str, sock_tcp_connect,
    puts, ret.
  cbv zeta. rewrite H. reflexivity.
Qed.

Lemma server_listen_failed (P : provider) (fuel : nat) (s : state) :
  listen_res P < 0 ->
  test_tcp_server P fuel s =
  (Done 1, s,
   [Ev_listen 12345 SOCK_QUEUE_LEN 0 (listen_res P); Ev_puts msg_listen_error]).
Proof.
  intros H. apply Z.ltb_lt in H.
  unfold test_tcp_server, bind, sock_tcp_listen, puts, ret.
  cbv zeta. rewrite H. reflexivity.
Qed.

(** C4: when [sock_tcp_connect] fails the client returns 1, having called
    neither write nor disconnect: the trace is the address parsing, the
    failed connect and the diagnostic. *)
Theorem client_connect_failure (P : provider) (fuel : nat) (s : state) :
  connect_res P < 0 ->
  let r := test_tcp_client P fuel s in
  result r = Done 1 /\ 1 <> 0 /\
  trace r = [Ev_addr_from_str "192.168.1.102"; Ev_connect 12344 (connect_res P);
             Ev_puts msg_connect_error] /\
  calls is_write (trace r) = 0%nat /\
  calls is_disconnect (trace r) = 0%nat.
Proof.
  intros H r. subst r. rewrite (client_connect_failed P fuel s H).
  repeat split. discriminate.
Qed.

Lemma client_connect_failure_witness :
  connect_res Scenario.refused < 0 /\
  result (test_tcp_client Scenario.refused 8 (init [])) = Done 1.
Proof.
  split; [reflexivity |].
  apply (client_connect_failure Scenario.refused 8 (init [])). reflexivity.
Defined.

(** C10: when [sock_tcp_listen] fails the server reports it and returns 1
    at once; accept, read and disconnect are never called. *)
Theorem server_listen_failure (P : provider) (fuel : nat) (s : state) :
  listen_res P < 0 ->
  let r := test_tcp_server P fuel s in
  result r = Done 1 /\
  trace r = [Ev_listen 12345 SOCK_QUEUE_LEN 0 (listen_res P); Ev_puts msg_listen_error] /\
  calls is_accept (trace r) = 0%nat /\
  calls is_read (trace r) = 0%nat /\
  calls is_disconnect (trace r) = 0%nat.
Proof.
  intros H r. subst r. rewrite (server_listen_failed P fuel s H).
  repeat split.
Qed.

Lemma server_listen_failure_witness :
  listen_res Scenario.port_busy < 0 /\
  result (test_tcp_server Scenario.port_busy 8 (init [])) = Done 1.
Proof.
  split; [reflexivity |].
  apply (server_listen_failure Scenario.port_busy 8 (init [])). reflexivity.
Defined.

(** ** The server loop *)

Lemma server_run_app q t1 t2 :
  server_run q (t1 ++ t2) =
  match server_run q t1 with
  | Some q' => server_run q' t2
  | None => None
  end.
Proof.
  revert q. induction t1 as [|e t1 IH]; intros q; simpl; [reflexivity |].
  destruct (server_step q e); [apply IH | reflexivity].
Qed.

(** The drain loop reads until a read fails; it leaves the observer in
    [Closing] when it ends and in [Draining] when the fuel is spent. *)
Lemma drain_loop_run (P : provider) (fuel : nat) :
  forall rr s, 0 <= rr ->
    server_run Draining (trace (drain_loop P fuel rr s)) =
    Some (match result (drain_loop P fuel rr s) with
          | Done _ => Closing
          | OutOfFuel => Draining
          end).
Proof.
  induction fuel as [|fuel IH]; intros rr s Hrr; simpl;
    (replace (rr >=? 0) with true by (symmetry; apply Z.geb_le; lia)).
  - reflexivity.
  - run1.
    destruct (read_res P (n_read s) <? 0) eqn:E; run1.
    + simpl. rewrite E. reflexivity.
    + simpl. rewrite E. apply IH. apply Z.ltb_ge in E. exact E.
Qed.

(** The accept loop never returns, and its trace keeps the observer on the
    cycle Accepting -> ... -> Accepting; the fuel runs out either between
    two rounds or inside a drain loop. *)
Lemma server_loop_run (P : provider) (fuel : nat) :
  forall s,
    result (server_loop P fuel s) = OutOfFuel /\
    paused (server_run Accepting (trace (server_loop P fuel s))) = true.
Proof.
  induction fuel as [|fuel IH]; intros s; simpl.
  - split; reflexivity.
  - run1.
    set (s1 := next_accept s).
    destruct (accept_res P (n_accept s) <? 0) eqn:E; run1.
    + destruct (IH s1) as [R T].
      split; [exact R |].
      simpl. rewrite E. simpl. exact T.
    + pose proof (drain_loop_run P fuel 0 s1 (Z.le_refl 0)) as D.
      destruct (result (drain_loop P fuel 0 s1)) as [u|] eqn:DL; run1.
      * destruct (IH (final (drain_loop P fuel 0 s1))) as [R T].
        split; [exact R |].
        cbn [server_run server_step app]. rewrite E.
        cbn [server_run server_step]. simpl String.eqb. cbv iota.
        rewrite <- !app_assoc. rewrite server_run_app, D.
        simpl. exact T.
      * split; [reflexivity |].
        cbn [server_run server_step app]. rewrite E.
        cbn [server_run server_step]. simpl String.eqb. cbv iota.
        rewrite D. reflexivity.
Qed.

Lemma test_tcp_server_run (P : provider) (fuel : nat) (s : state) :
  0 <= listen_res P ->
  result (test_tcp_server P fuel s) = OutOfFuel /\
  paused (server_run Idle (trace (test_tcp_server P fuel s))) = true.
Proof.
  intros H. apply Z.ltb_ge in H.
  unfold test_tcp_server. run1. rewrite H. run1.
  destruct (server_loop_run P fuel s) as [R T].
  split; [exact R |].
  simpl. rewrite H. simpl. exact T.
Qed.

Lemma server_run_split q0 pre e post qf :
  server_run q0 (pre ++ e :: post) = Some qf ->
  exists q1 q2,
    server_run q0 pre = Some q1 /\ server_step q1 e = Some q2 /\
    server_run q2 post = Some qf.
Proof.
  rewrite server_run_app. destruct (server_run q0 pre) as [q1|]; [| discriminate].
  simpl. destruct (server_step q1 e) as [q2|] eqn:E; [| discriminate].
  intros H. exists q1, q2. auto.
Qed.

Lemma paused_split q0 pre post :
  paused (server_run q0 (pre ++ post)) = true ->
  exists q1 qf, server_run q0 pre = Some q1 /\ server_run q1 post = Some qf /\
                (qf = Accepting \/ qf = Draining).
Proof.
  rewrite server_run_app. destruct (server_run q0 pre) as [q1|]; [| discriminate].
  destruct (server_run q1 post) as [qf|] eqn:E; [| discriminate].
  intros H. exists q1, qf. repeat split; trivial.
  destruct qf; try discriminate; auto.
Qed.

Lemma puts_step_inv q m q' :
  server_step q (Ev_puts m) = Some q' ->
  (q = ListenFailed /\ m = msg_listen_error /\ q' = Terminated) \/
  (q = Listening /\ m = msg_listening /\ q' = Accepting) \/
  (q = AcceptFailed /\ m = msg_accept_error /\ q' = Accepting) \/
  (q = Accepted /\ m = msg_reading /\ q' = Draining) \/
  (q = ReadFailed /\ m = msg_disconnected /\ q' = Closing).
Proof.
  destruct q; simpl; try discriminate;
    match goal with |- context [String.eqb m ?x] =>
      destruct (String.eqb_spec m x) as [->|]; [| discriminate]
    end; intros [= <-]; tauto.
Qed.

(** In the observer's state one reads off whether a connection is held:
    accepted connections are disconnected connections plus, possibly, the
    one being served. *)
Lemma server_run_balance pre :
  forall q0 q, server_run q0 pre = Some q ->
    ((if holds_connection q0 then 1 else 0) + accepted pre =
     (if holds_connection q then 1 else 0) + disconnected pre)%nat.
Proof.
  unfold accepted, disconnected, calls.
  induction pre as [|e pre IH]; intros q0 q; simpl.
  - intros [= ->]. lia.
  - destruct (server_step q0 e) as [q1|] eqn:E; [| discriminate].
    intros H. specialize (IH _ _ H).
    destruct q0, e; simpl in E; try discriminate;
      try (destruct (String.eqb _ _); [| discriminate]);
      injection E as <-; simpl in *;
      try (destruct (r <? 0) eqn:R; [apply Z.ltb_lt in R | apply Z.ltb_ge in R]);
      try (replace (0 <=? r) with false by (symmetry; apply Z.leb_gt; lia));
      try (replace (0 <=? r) with true by (symmetry; apply Z.leb_le; lia));
      simpl in *; lia.
Qed.

Lemma server_loop_retries (P : provider) (n : nat) :
  forall fuel s,
    (n < fuel)%nat ->
    (forall i, (i < n)%nat -> accept_res P (n_accept s + i) < 0) ->
    exists rest,
      trace (server_loop P fuel s) =
      failed_accepts P (n_accept s) n ++ Ev_accept (accept_res P (n_accept s + n)) :: rest.
Proof.
  induction n as [|n IH]; intros fuel s Hf Hfail;
    (destruct fuel as [|fuel]; [lia |]); simpl; run1.
  - rewrite Nat.add_0_r. eexists. reflexivity.
  - assert (H0 : (accept_res P (n_accept s) <? 0) = true).
    { apply Z.ltb_lt. specialize (Hfail 0%nat). rewrite Nat.add_0_r in Hfail.
      apply Hfail. lia. }
    rewrite H0. run1.
    match goal with |- context [server_loop P fuel ?s1] =>
      destruct (IH fuel s1) as [rest Hrest]
    end.
    + lia.
    + intros i Hi. simpl. replace (S (n_accept s + i)) with (n_accept s + S i)%nat by lia.
      apply Hfail. lia.
    + rewrite Hrest. simpl.
      replace (S (n_accept s + n)) with (n_accept s + S n)%nat by lia.
      eexists. reflexivity.
Qed.

(** More fuel does not change a drain loop that ended. *)
Lemma drain_loop_done_more (P : provider) (fuel : nat) :
  forall rr s u,
    result (drain_loop P fuel rr s) = Done u ->
    drain_loop P (S fuel) rr s = drain_loop P fuel rr s.
Proof.
  induction fuel as [|fuel IH]; intros rr s u.
  - cbn [drain_loop]. destruct (rr >=? 0); [discriminate | reflexivity].
  - intros R. 
    change (drain_loop P (S (S fuel)) rr s) with
      ((if rr >=? 0 then
          r <- sock_tcp_read P sizeof_buf ;;
          if r <? 0 then puts msg_disconnected else drain_loop P (S fuel) r
        else ret tt) s).
    change (drain_loop P (S fuel) rr s) with
      ((if rr >=? 0 then
          r <- sock_tcp_read P sizeof_buf ;;
          if r <? 0 then puts msg_disconnected else drain_loop P fuel r
        else ret tt) s) in R |- *.
    destruct (rr >=? 0); [| reflexivity].
    unfold bind in R |- *. cbn [sock_tcp_read] in R |- *. cbv zeta in R |- *.
    destruct (read_res P (n_read s) <? 0); [reflexivity |].
    match goal with |- context [drain_loop P (S fuel) ?r ?s1] =>
      destruct (drain_loop P fuel r s1) as [[o s2] t2] eqn:D;
      rewrite (IH r s1 u)
    end.
    + rewrite D. reflexivity.
    + rewrite D. unfold result in *. cbn [fst] in *. exact R.
Qed.

(** More fuel only extends the trace of a drain loop. *)
Lemma drain_loop_more (P : provider) (fuel : nat) :
  forall rr s,
    exists ext,
      trace (drain_loop P (S fuel) rr s) = trace (drain_loop P fuel rr s) ++ ext.
Proof.
  induction fuel as [|fuel IH]; intros rr s.
  - cbn [drain_loop]. destruct (rr >=? 0).
    + eexists. cbn [trace out_of_fuel snd app]. reflexivity.
    + exists []. reflexivity.
  - change (drain_loop P (S (S fuel)) rr s) with
      ((if rr >=? 0 then
          r <- sock_tcp_read P sizeof_buf ;;
          if r <? 0 then puts msg_disconnected else drain_loop P (S fuel) r
        else ret tt) s).
    change (drain_loop P (S fuel) rr s) with
      ((if rr >=? 0 then
          r <- sock_tcp_read P sizeof_buf ;;
          if r <? 0 then puts msg_disconnected else drain_loop P fuel r
        else ret tt) s).
    destruct (rr >=? 0); [| exists []; reflexivity].
    rewrite !trace_bind. cbn [result final trace fst snd sock_tcp_read]. cbv zeta.
    destruct (read_res P (n_read s) <? 0); [exists []; rewrite app_nil_r; reflexivity |].
    match goal with |- context [drain_loop P (S fuel) ?r ?s1] =>
      destruct (IH r s1) as [ext E]
    end.
    exists ext. rewrite E. rewrite app_assoc. reflexivity.
Qed.

(** More fuel only extends the trace of the accept loop, and where the
    shorter run stopped between two rounds the longer one goes on with an
    accept. *)
Lemma server_loop_more (P : provider) (fuel : nat) :
  forall s,
    exists ext,
      trace (server_loop P (S fuel) s) = trace (server_loop P fuel s) ++ ext /\
      (server_run Accepting (trace (server_loop P fuel s)) = Some Accepting ->
       exists a rest, ext = Ev_accept a :: rest).
Proof.
  induction fuel as [|fuel IH]; intros s.
  - exists (trace (server_loop P 1 s)). split; [reflexivity |]. intros _.
    change (server_loop P 1 s) with
      ((r <- sock_tcp_accept P ;;
        (if r <? 0 then puts msg_accept_error
         else puts msg_reading ;; drain_loop P 0 0 ;; sock_tcp_disconnect) ;;
        server_loop P 0) s).
    rewrite trace_bind. cbn [result final trace fst snd sock_tcp_accept].
    cbv zeta. eexists _, _. reflexivity.
  - change (server_loop P (S (S fuel)) s) with
      ((r <- sock_tcp_accept P ;;
        (if r <? 0 then puts msg_accept_error
         else puts msg_reading ;; drain_loop P (S fuel) 0 ;; sock_tcp_disconnect) ;;
        server_loop P (S fuel)) s).
    change (server_loop P (S fuel) s) with
      ((r <- sock_tcp_accept P ;;
        (if r <? 0 then puts msg_accept_error
         else puts msg_reading ;; drain_loop P fuel 0 ;; sock_tcp_disconnect) ;;
        server_loop P fuel) s).
    rewrite !trace_bind. cbn [result final trace fst snd sock_tcp_accept]. cbv zeta.
    set (s1 := next_accept s).
    destruct (accept_res P (n_accept s) <? 0) eqn:E.
    + rewrite !trace_bind. cbn [result final trace fst snd puts].
      destruct (IH s1) as [ext [E1 E2]].
      exists ext. split.
      * rewrite E1. reflexivity.
      * cbn [app server_run server_step]. rewrite E.
        cbn [server_run server_step]. simpl String.eqb. cbv iota. exact E2.
    + do 3 run1.
      pose proof (drain_loop_run P fuel 0 s1 (Z.le_refl 0)) as DR.
      destruct (result (drain_loop P fuel 0 s1)) as [u|] eqn:D.
      * rewrite (drain_loop_done_more P fuel 0 s1 u D), D. run1.
        destruct (IH (final (drain_loop P fuel 0 s1))) as [ext [E1 E2]].
        exists ext. split.
        -- rewrite E1. cbn [app]. rewrite <- ?app_assoc. reflexivity.
        -- cbn [app server_run server_step]. rewrite E.
           cbn [server_run server_step]. simpl String.eqb. cbv iota.
           rewrite <- !app_assoc. rewrite server_run_app, DR. cbn [app server_run server_step].
           exact E2.
      * destruct (drain_loop_more P fuel 0 s1) as [ext E1].
        assert (St : server_run Accepting
                       ([Ev_accept (accept_res P (n_accept s))] ++
                        [Ev_puts msg_reading] ++ trace (drain_loop P fuel 0 s1))
                     <> Some Accepting).
        { cbn [app server_run server_step]. rewrite E.
          cbn [server_run server_step]. simpl String.eqb. cbv iota.
          rewrite DR. discriminate. }
        rewrite E1.
        destruct (result (drain_loop P (S fuel) 0 s1)); run1;
          (eexists; split;
           [cbn [app]; rewrite <- ?app_assoc; reflexivity | intros C; destruct (St C)]).
Qed.

Lemma server_run_after_failed_accept q0 pre a :
  paused (server_run q0 (pre ++ [Ev_accept a; Ev_puts msg_accept_error])) = true ->
  server_run q0 (pre ++ [Ev_accept a; Ev_puts msg_accept_error]) = Some Accepting.
Proof.
  rewrite server_run_app. destruct (server_run q0 pre) as [q1|]; [| discriminate].
  destruct q1; try discriminate.
  cbn [server_run server_step]. destruct (a <? 0); [reflexivity | discriminate].
Qed.

Lemma server_run_never_terminated pre post :
  paused (server_run Idle (pre ++ post)) = true ->
  exists q, server_run Idle pre = Some q /\ q <> Terminated.
Proof.
  intros T. destruct (paused_split _ _ _ T) as [q [qf [T1 [T2 Hqf]]]].
  exists q. split; [exact T1 |]. intros ->.
  destruct post as [|e post]; simpl in T2.
  - injection T2 as <-. destruct Hqf; discriminate.
  - discriminate.
Qed.

(** C5: once listening, the server never returns, whatever accept
    answers, and no point of its run is in the state Terminated; every
    failed accept is followed by its diagnostic and then, as far as the
    run is observed, by another accept; a run observed up to the
    diagnostic of a failed accept goes on with an accept; and after n
    failed accepts in a row the server is calling accept for the (n+1)-th
    time. *)
Theorem server_accept_retry (P : provider) (fuel : nat) (b : list Z) :
  0 <= listen_res P ->
  let r := test_tcp_server P fuel (init b) in
  result r = OutOfFuel /\
  (forall pre post,
      trace r = pre ++ post ->
      exists q, server_run Idle pre = Some q /\ q <> Terminated) /\
  (forall pre a post,
      trace r = pre ++ Ev_accept a :: post -> a < 0 ->
      exists post',
        post = Ev_puts msg_accept_error :: post' /\
        (post' = [] \/ exists a' post'', post' = Ev_accept a' :: post'')) /\
  (forall pre a,
      trace r = pre ++ [Ev_accept a; Ev_puts msg_accept_error] ->
      exists a' rest,
        trace (test_tcp_server P (S fuel) (init b)) = trace r ++ Ev_accept a' :: rest) /\
  (forall n,
      (n < fuel)%nat -> (forall i, (i < n)%nat -> accept_res P i < 0) ->
      exists rest,
        trace r =
        Ev_listen 12345 SOCK_QUEUE_LEN 0 (listen_res P) :: Ev_puts msg_listening ::
        failed_accepts P 0 n ++ Ev_accept (accept_res P n) :: rest).
Proof.
  intros H r. destruct (test_tcp_server_run P fuel (init b) H) as [R T].
  fold r in R, T. split; [exact R |].
  assert (L : (listen_res P <? 0) = false) by (apply Z.ltb_ge; exact H).
  assert (Tr : forall f,
             trace (test_tcp_server P f (init b)) =
             Ev_listen 12345 SOCK_QUEUE_LEN 0 (listen_res P) :: Ev_puts msg_listening ::
             trace (server_loop P f (init b))).
  { intros f. unfold test_tcp_server. run1. rewrite L. run1. reflexivity. }
  split; [| split; [| split]].
  - intros pre post E. rewrite E in T. exact (server_run_never_terminated _ _ T).
  - intros pre a post E Ha. rewrite E in T.
    change (pre ++ Ev_accept a :: post) with (pre ++ [Ev_accept a] ++ post) in T.
    rewrite app_assoc in T.
    destruct (paused_split _ _ _ T) as [q2 [qf [T1 [T2 Hqf]]]].
    destruct (server_run_split _ _ _ _ _ T1) as [q0 [q1 [_ [S1 S2]]]].
    simpl in S2. injection S2 as <-.
    destruct q0; simpl in S1; try discriminate.
    replace (a <? 0) with true in S1 by (symmetry; apply Z.ltb_lt; lia).
    injection S1 as <-.
    destruct post as [|e post]; cbn [server_run] in T2.
    + injection T2 as <-. destruct Hqf; discriminate.
    + destruct (server_step AcceptFailed e) as [q3|] eqn:S3; [| discriminate].
      destruct e; try discriminate.
      destruct (puts_step_inv _ _ _ S3) as [[? _]|[[? _]|[[_ [-> ->]]|[[? _]|[? _]]]]];
        try discriminate.
      exists post. split; [reflexivity |].
      destruct post as [|e' post]; [now left | right].
      simpl in T2. destruct e'; simpl in T2; try discriminate.
      eauto.
  - intros pre a E. rewrite E in T.
    pose proof (server_run_after_failed_accept _ _ _ T) as Q.
    rewrite <- E in Q. subst r. rewrite Tr in Q.
    cbn [server_run server_step] in Q. rewrite L in Q.
    cbn [server_run server_step] in Q. simpl String.eqb in Q. cbv iota in Q.
    destruct (server_loop_more P fuel (init b)) as [ext [E1 E2]].
    destruct (E2 Q) as [a' [rest ->]].
    exists a', rest. rewrite !Tr, E1. reflexivity.
  - intros n Hn Hfail.
    destruct (server_loop_retries P n fuel (init b) Hn Hfail) as [rest Hrest].
    exists rest. subst r. rewrite Tr, Hrest. reflexivity.
Qed.

Lemma server_accept_retry_witness :
  0 <= listen_res Scenario.flaky_accept /\
  (forall i, (i < 3)%nat -> accept_res Scenario.flaky_accept i < 0) /\
  exists rest,
    trace (test_tcp_server Scenario.flaky_accept 6 (init [])) =
    Ev_listen 12345 SOCK_QUEUE_LEN 0 0 :: Ev_puts msg_listening ::
    failed_accepts Scenario.flaky_accept 0 3 ++ Ev_accept 0 :: rest.
Proof.
  assert (Hl : 0 <= listen_res Scenario.flaky_accept) by discriminate.
  assert (Hf : forall i, (i < 3)%nat -> accept_res Scenario.flaky_accept i < 0).
  { intros i Hi. do 3 (destruct i as [|i]; [reflexivity |]). lia. }
  split; [exact Hl |]. split; [exact Hf |].
  destruct (server_accept_retry Scenario.flaky_accept 6 [] Hl) as [_ [_ [_ [_ K]]]].
  apply (K 3%nat); [lia | exact Hf].
Defined.

(** C6: at every point of every run of the server, the connections
    accepted so far are the connections disconnected so far plus at most
    one; and whenever accept is called, every accepted connection has been
    disconnected. *)
Theorem server_single_connection (P : provider) (fuel : nat) (b : list Z)
        (pre post : list event) :
  trace (test_tcp_server P fuel (init b)) = pre ++ post ->
  (accepted pre = disconnected pre \/ accepted pre = S (disconnected pre)) /\
  (forall a post', post = Ev_accept a :: post' -> accepted pre = disconnected pre).
Proof.
  intros E.
  assert (T : exists q, server_run Idle pre = Some q /\
                        exists qf, server_run q post = Some qf).
  { destruct (Z.ltb_spec (listen_res P) 0) as [L|L].
    - assert (Tr : trace (test_tcp_server P fuel (init b)) =
                   [Ev_listen 12345 SOCK_QUEUE_LEN 0 (listen_res P);
                    Ev_puts msg_listen_error])
        by (rewrite (server_listen_failed P fuel (init b) L); reflexivity).
      rewrite E in Tr.
      assert (R : server_run Idle (pre ++ post) = Some Terminated).
      { rewrite Tr. simpl.
        replace (listen_res P <? 0) with true by (symmetry; apply Z.ltb_lt; lia).
        reflexivity. }
      rewrite server_run_app in R.
      destruct (server_run Idle pre) as [q|]; [| discriminate]. eauto.
    - destruct (test_tcp_server_run P fuel (init b) L) as [_ T].
      rewrite E in T. destruct (paused_split _ _ _ T) as [q [qf [T1 [T2 _]]]]. eauto. }
  destruct T as [q [T1 [qf T2]]].
  pose proof (server_run_balance pre Idle q T1) as B. simpl in B.
  split.
  - destruct (holds_connection q); [right | left]; lia.
  - intros a post' ->. simpl in T2.
    destruct q; simpl in T2; try discriminate. simpl in B. lia.
Qed.

Lemma server_single_connection_witness :
  let t := trace (test_tcp_server Scenario.flaky_accept 5 (init [])) in
  t = firstn 10 t ++ skipn 10 t /\
  accepted (firstn 10 t) = 1%nat /\
  (accepted (firstn 10 t) = disconnected (firstn 10 t) \/
   accepted (firstn 10 t) = S (disconnected (firstn 10 t))).
Proof.
  intros t. split; [reflexivity |]. split; [reflexivity |].
  apply (server_single_connection Scenario.flaky_accept 5 []
           (firstn 10 t) (skipn 10 t)).
  reflexivity.
Defined.

(** ** The client's stream loop *)

Section ClientFacts.
Variable P : provider.

Lemma report_check_eq (v : client_vars) (s : state) :
  report_check P v s =
  let t := u32 (clock P (n_now s)) in
  (Done (after_report v t), next_now s, Ev_now t :: report_events v t).
Proof.
  unfold report_check, after_report, report_events, report_due, bind,
    xtimer_now_usec, printf, ret.
  cbv zeta. destruct (_ >=? _); reflexivity.
Qed.

Lemma stream_write_eq (v : client_vars) (s : state) :
  stream_write P v s =
  let r := write_res P (n_write s) in
  let d := firstn (Z.to_nat sizeof_buf) (buf s) in
  if r <? 0 then
    (Done (inl (broke v r)), next_write s, [Ev_write d r; Ev_puts msg_write_error])
  else
    (Done (inr (wrote v r)), next_write s, [Ev_write d r]).
Proof.
  unfold stream_write, broke, wrote, bind, get_buf, sock_tcp_write, puts, ret.
  cbv zeta. destruct (_ <? _); reflexivity.
Qed.

(** One iteration whose write fails leaves the loop. *)
Lemma stream_loop_break (fuel : nat) (v : client_vars) (s : state) :
  write_res P (n_write s) < 0 ->
  let t := u32 (clock P (n_now s)) in
  let r := write_res P (n_write s) in
  stream_loop P (S fuel) v s =
  (Done (broke (after_report v t) r), next_write (next_now s),
   Ev_now t :: report_events v t ++
   [Ev_write (firstn (Z.to_nat sizeof_buf) (buf s)) r; Ev_puts msg_write_error]).
Proof.
  intros H t r. apply Z.ltb_lt in H.
  cbn [stream_loop]. unfold bind at 1. rewrite report_check_eq. cbv zeta.
  unfold bind at 1. rewrite stream_write_eq. cbv zeta.
  cbn [n_write next_now buf]. rewrite H. reflexivity.
Qed.

(** One iteration whose write succeeds goes round. *)
Lemma stream_loop_again (fuel : nat) (v : client_vars) (s : state) :
  0 <= write_res P (n_write s) ->
  let t := u32 (clock P (n_now s)) in
  let r := write_res P (n_write s) in
  let next := stream_loop P fuel (wrote (after_report v t) r) (next_write (next_now s)) in
  stream_loop P (S fuel) v s =
  (result next, final next,
   Ev_now t :: report_events v t ++
   Ev_write (firstn (Z.to_nat sizeof_buf) (buf s)) r :: trace next).
Proof.
  intros H t r next. apply Z.ltb_ge in H.
  cbn [stream_loop]. unfold bind at 1. rewrite report_check_eq. cbv zeta.
  unfold bind at 1. rewrite stream_write_eq. cbv zeta.
  cbn [n_write next_now buf]. rewrite H.
  fold t r. fold next. destruct next as [[o s2] t2].
  unfold result, final, trace. cbn [fst snd]. reflexivity.
Qed.

Lemma calls_report_events f v t :
  (forall fmt x, f (Ev_printf fmt x) = false) -> calls f (report_events v t) = 0%nat.
Proof.
  intros H. unfold report_events. destruct (report_due v t); [| reflexivity].
  unfold calls. simpl. rewrite H. reflexivity.
Qed.

(** The loop never touches the buffer, never disconnects, and every write
    carries the first 2048 bytes of the buffer. *)
Lemma stream_loop_frame (fuel : nat) :
  forall v s,
    let r := stream_loop P fuel v s in
    buf (final r) = buf s /\
    calls is_disconnect (trace r) = 0%nat /\
    Forall (fun e => exists rv, e = Ev_write (firstn (Z.to_nat sizeof_buf) (buf s)) rv)
           (filter is_write (trace r)).
Proof.
  induction fuel as [|fuel IH]; intros v s; cbv zeta.
  - simpl. repeat split. constructor.
  - destruct (Z.ltb_spec (write_res P (n_write s)) 0) as [H|H].
    + rewrite (stream_loop_break fuel v s H). cbn [final trace fst snd].
      split; [reflexivity |]. split.
      * change (Ev_now ?t :: ?l) with ([Ev_now t] ++ l).
        rewrite !calls_app, calls_report_events by reflexivity. reflexivity.
      * cbn [filter is_write]. rewrite filter_app.
        unfold report_events. destruct (report_due _ _); simpl;
          (constructor; [eexists; reflexivity | constructor]).
    + rewrite (stream_loop_again fuel v s H). cbn [final trace fst snd].
      match goal with |- context [stream_loop P fuel ?v1 ?s1] =>
        destruct (IH v1 s1) as [B [D W]]
      end.
      cbv zeta in B, D, W. cbn [buf next_write next_now] in B, W.
      split; [exact B |]. split.
      * change (Ev_now ?t :: ?l) with ([Ev_now t] ++ l).
        rewrite !calls_app, calls_report_events by reflexivity.
        change (Ev_write ?d ?r :: ?l) with ([Ev_write d r] ++ l).
        rewrite calls_app, D. reflexivity.
      * cbn [filter is_write]. rewrite filter_app.
        unfold report_events. destruct (report_due _ _); simpl;
          (constructor; [eexists; reflexivity | exact W]).
Qed.

(** When the writes numbered [n_write s .. n_write s + k - 1] succeed and
    the next one fails, the loop makes exactly k + 1 writes and leaves
    with the failing result. *)
Lemma stream_loop_fails_at (k : nat) :
  forall fuel v s,
    (k < fuel)%nat ->
    (forall i, (i < k)%nat -> 0 <= write_res P (n_write s + i)) ->
    write_res P (n_write s + k) < 0 ->
    let r := stream_loop P fuel v s in
    (exists v', result r = Done v' /\ res v' = write_res P (n_write s + k)) /\
    calls is_write (trace r) = S k /\
    n_write (final r) = (n_write s + S k)%nat.
Proof.
  induction k as [|k IH]; intros fuel v s Hf Hok Hfail;
    (destruct fuel as [|fuel]; [lia |]); cbv zeta.
  - rewrite Nat.add_0_r in Hfail.
    rewrite (stream_loop_break fuel v s Hfail). cbn [result final trace fst snd].
    split; [eexists; split; [reflexivity |]; simpl; now rewrite Nat.add_0_r |].
    split.
    + change (Ev_now ?t :: ?l) with ([Ev_now t] ++ l).
      rewrite !calls_app, calls_report_events by reflexivity. reflexivity.
    + simpl. lia.
  - assert (H0 : 0 <= write_res P (n_write s)).
    { specialize (Hok 0%nat). rewrite Nat.add_0_r in Hok. apply Hok. lia. }
    rewrite (stream_loop_again fuel v s H0). cbn [result final trace fst snd].
    match goal with |- context [stream_loop P fuel ?v1 ?s1] =>
      destruct (IH fuel v1 s1) as [[v' [R V]] [W N]]
    end.
    + lia.
    + intros i Hi. simpl. replace (S (n_write s + i)) with (n_write s + S i)%nat by lia.
      apply Hok. lia.
    + simpl. replace (S (n_write s + k)) with (n_write s + S k)%nat by lia. exact Hfail.
    + cbv zeta in R, V, W, N. simpl n_write in V, N.
      split; [exists v'; split; [exact R |] |].
      { rewrite V. f_equal. lia. }
      split.
      * change (Ev_now ?t :: ?l) with ([Ev_now t] ++ l).
        rewrite !calls_app, calls_report_events by reflexivity.
        change (Ev_write ?d ?r :: ?l) with ([Ev_write d r] ++ l).
        rewrite calls_app, W. reflexivity.
      * rewrite N. lia.
Qed.

(** The loop returns only through the [break]: its last two events are a
    failed write and the diagnostic. *)
Lemma stream_loop_exit (fuel : nat) :
  forall v s v',
    result (stream_loop P fuel v s) = Done v' ->
    res v' < 0 /\
    exists pre d,
      trace (stream_loop P fuel v s) = pre ++ [Ev_write d (res v'); Ev_puts msg_write_error].
Proof.
  induction fuel as [|fuel IH]; intros v s v'.
  - discriminate.
  - destruct (Z.ltb_spec (write_res P (n_write s)) 0) as [H|H].
    + rewrite (stream_loop_break fuel v s H). cbn [result trace fst snd].
      intros [= <-]. split; [exact H |].
      eexists (Ev_now _ :: report_events _ _), _. reflexivity.
    + rewrite (stream_loop_again fuel v s H). cbn [result trace fst snd].
      intros R. destruct (IH _ _ _ R) as [Hr [pre [d E]]].
      split; [exact Hr |]. rewrite E.
      eexists (Ev_now _ :: report_events _ _ ++ Ev_write _ _ :: pre), d.
      simpl. rewrite <- app_assoc. reflexivity.
Qed.

(** With any fuel at all the loop makes a first write. *)
Lemma stream_loop_first_write (fuel : nat) (v : client_vars) (s : state) :
  exists post,
    trace (stream_loop P (S fuel) v s) =
    Ev_now (u32 (clock P (n_now s))) :: report_events v (u32 (clock P (n_now s))) ++
    Ev_write (firstn (Z.to_nat sizeof_buf) (buf s)) (write_res P (n_write s)) :: post.
Proof.
  destruct (Z.ltb_spec (write_res P (n_write s)) 0) as [H|H].
  - rewrite (stream_loop_break fuel v s H). eexists. reflexivity.
  - rewrite (stream_loop_again fuel v s H). eexists. reflexivity.
Qed.
(** Every report in a trace of the loop is as line 109 computes it, on
    2048 bytes for each write of its own window that succeeded. *)
Lemma stream_loop_reports (fuel : nat) :
  forall v s ws tlast,
    sentlen v = u64 (sizeof_buf * Z.of_nat (List.length ws)) ->
    Forall report_ok (reports (tick1 v) tlast ws (trace (stream_loop P fuel v s))).
Proof.
  induction fuel as [|fuel IH]; intros v s ws tlast Hs.
  - constructor.
  - set (t := u32 (clock P (n_now s))).
    set (r := write_res P (n_write s)).
    assert (Hnext : forall rest,
               (r < 0 -> rest = [Ev_puts msg_write_error]) ->
               (0 <= r -> rest = trace (stream_loop P fuel (wrote (after_report v t) r)
                                          (next_write (next_now s)))) ->
               Forall report_ok
                 (reports (tick1 v) tlast ws
                    (Ev_now t :: report_events v t ++
                     Ev_write (firstn (Z.to_nat sizeof_buf) (buf s)) r :: rest))).
    { intros rest Hbreak Hagain. cbn [reports].
      unfold report_events, after_report in *.
      destruct (report_due v t) eqn:Due; cbn [app reports].
      - constructor.
        + unfold report_ok. cbn [r_dt r_rate r_writes]. split.
          * unfold report_due in Due. apply Z.geb_le in Due.
            split; [exact Due |]. apply Z.mod_pos_bound. reflexivity.
          * rewrite Hs. reflexivity.
        + destruct (Z.ltb_spec r 0) as [Hr|Hr].
          * rewrite (Hbreak Hr). constructor.
          * rewrite (Hagain Hr).
            exact (IH (wrote {| res := res v; sentlen := 0; tick1 := t; tick2 := t |} r)
                      _ [r] t eq_refl).
      - destruct (Z.ltb_spec r 0) as [Hr|Hr].
        + rewrite (Hbreak Hr). constructor.
        + rewrite (Hagain Hr).
          refine (IH (wrote {| res := res v; sentlen := sentlen v;
                               tick1 := tick1 v; tick2 := t |} r) _ (ws ++ [r]) t _).
          unfold wrote. cbn [sentlen]. rewrite Hs, length_app. cbn [List.length].
          unfold u64. rewrite Zplus_mod_idemp_l. f_equal. lia. }
    destruct (Z.ltb_spec r 0) as [H|H].
    + rewrite (stream_loop_break fuel v s H). cbn [trace snd]. fold t r.
      change [Ev_write ?d r; Ev_puts msg_write_error]
        with (Ev_write d r :: [Ev_puts msg_write_error]).
      apply Hnext; [reflexivity | lia].
    + rewrite (stream_loop_again fuel v s H). cbn [trace snd]. fold t r.
      apply Hnext; [lia | reflexivity].
Qed.

Lemma reports_snoc_disconnect (t : list event) :
  forall tref tlast ws,
    reports tref tlast ws (t ++ [Ev_disconnect]) = reports tref tlast ws t.
Proof.
  induction t as [|e t IH]; intros tref tlast ws; [reflexivity |].
  destruct e; cbn [app reports]; rewrite ?IH; reflexivity.
Qed.

Lemma firstn_filler (rest : list Z) :
  firstn (Z.to_nat sizeof_buf) (repeat (u8 97) (Z.to_nat sizeof_buf) ++ rest) = filler.
Proof.
  unfold filler. change (u8 97) with 97.
  generalize (Z.to_nat sizeof_buf) as n.
  induction n as [|n IH]; [reflexivity |].
  cbn [repeat app firstn]. rewrite IH. reflexivity.
Qed.

(** ** The client routine, path by path *)

Lemma client_handshake_failed (fuel : nat) (s : state) :
  0 <= connect_res P ->
  write_res P (n_write s) < 0 ->
  test_tcp_client P fuel s =
  (Done (write_res P (n_write s)), next_write (memset_state s),
   connected_prefix P ++
   [Ev_write hello (write_res P (n_write s)); Ev_puts msg_write_error; Ev_disconnect]).
Proof.
  intros Hc Hw. apply Z.ltb_ge in Hc. apply Z.ltb_lt in Hw.
  unfold test_tcp_client, bind, memset_buf, ipv4_addr_from_str, sock_tcp_connect,
    sock_tcp_write, sock_tcp_disconnect, puts, ret.
  cbv zeta. rewrite Hc. cbn [n_write set_buf]. rewrite Hw. reflexivity.
Qed.

Lemma client_streams (fuel : nat) (s : state) :
  0 <= connect_res P ->
  0 <= write_res P (n_write s) ->
  let s0 := next_write (memset_state s) in
  let t0 := u32 (clock P (n_now s)) in
  let v0 := {| res := write_res P (n_write s); sentlen := 0; tick1 := t0; tick2 := 0 |} in
  let sl := stream_loop P fuel v0 (next_now s0) in
  test_tcp_client P fuel s =
  (match result sl with Done v => Done (res v) | OutOfFuel => OutOfFuel end,
   final sl,
   connected_prefix P ++ Ev_write hello (write_res P (n_write s)) :: Ev_now t0 ::
   trace sl ++ match result sl with Done _ => [Ev_disconnect] | OutOfFuel => [] end).
Proof.
  intros Hc Hw. apply Z.ltb_ge in Hc. apply Z.ltb_ge in Hw.
  unfold test_tcp_client, stream_phase, bind, memset_buf, ipv4_addr_from_str,
    sock_tcp_connect, sock_tcp_write, xtimer_now_usec, sock_tcp_disconnect, puts, ret,
    memset_state.
  cbv zeta. rewrite Hc.
  cbn [n_write n_now set_buf next_write res sentlen tick1 tick2]. rewrite Hw.
  destruct (stream_loop P fuel _ _) as [[[v|] s2] t2];
    unfold result, final, trace; cbn [fst snd].
  - reflexivity.
  - rewrite app_nil_r. reflexivity.
Qed.
Lemma client_reports_prefix (t : list event) :
  client_reports (connected_prefix P ++ t) = client_reports t.
Proof. reflexivity. Qed.

Lemma client_reports_ok (fuel : nat) (s : state) :
  Forall report_ok (client_reports (trace (test_tcp_client P fuel s))).
Proof.
  destruct (Z.ltb_spec (connect_res P) 0) as [Hc|Hc].
  - rewrite (client_connect_failed P fuel s Hc). constructor.
  - destruct (Z.ltb_spec (write_res P (n_write s)) 0) as [Hw|Hw].
    + rewrite (client_handshake_failed fuel s Hc Hw). constructor.
    + rewrite (client_streams fuel s Hc Hw). cbv zeta. cbn [trace snd].
      rewrite client_reports_prefix. cbn [client_reports].
      match goal with |- context [stream_loop P fuel ?v0 ?s0] =>
        pose proof (stream_loop_reports fuel v0 s0 [] (tick1 v0) eq_refl) as R;
        destruct (result (stream_loop P fuel v0 s0))
      end; cbn [tick1] in R.
      * rewrite reports_snoc_disconnect. exact R.
      * rewrite app_nil_r. exact R.
Qed.

(** On both paths on which connect succeeded, the routine returns only
    after one disconnect, its last call. *)
Lemma client_exit_disconnects (fuel : nat) (s : state) :
  0 <= connect_res P ->
  let r := test_tcp_client P fuel s in
  (forall rv, result r = Done rv ->
     disconnected (trace r) = 1%nat /\ exists pre, trace r = pre ++ [Ev_disconnect]) /\
  (result r = OutOfFuel -> disconnected (trace r) = 0%nat).
Proof.
  intros Hc. cbv zeta. unfold disconnected.
  destruct (Z.ltb_spec (write_res P (n_write s)) 0) as [Hw|Hw].
  - rewrite (client_handshake_failed fuel s Hc Hw). cbn [result trace fst snd].
    split; [| discriminate]. intros rv _. split; [reflexivity |].
    eexists (connected_prefix P ++ [_; _]). rewrite <- app_assoc. reflexivity.
  - rewrite (client_streams fuel s Hc Hw). cbv zeta. cbn [result trace fst snd].
    match goal with |- context [stream_loop P fuel ?v0 ?s0] =>
      destruct (stream_loop_frame fuel v0 s0) as [_ [D _]]; cbv zeta in D;
      destruct (result (stream_loop P fuel v0 s0)) as [v|]
    end.
    + split; [| discriminate]. intros rv _. split.
      * rewrite calls_app.
        change (Ev_write ?d ?r :: Ev_now ?t :: ?l) with ([Ev_write d r; Ev_now t] ++ l).
        rewrite !calls_app, D. reflexivity.
      * eexists (connected_prefix P ++ _ :: _ :: _).
        rewrite <- app_assoc. reflexivity.
    + split; [discriminate |]. intros _.
      rewrite calls_app.
      change (Ev_write ?d ?r :: Ev_now ?t :: ?l) with ([Ev_write d r; Ev_now t] ++ l).
      rewrite !calls_app, D. reflexivity.
Qed.
End ClientFacts.

(** After a failed read the server logs, disconnects, and only then calls
    accept again. *)
Lemma server_closes_after_read_error q0 pre len rr post :
  paused (server_run q0 (pre ++ Ev_read len rr :: post)) = true ->
  rr < 0 ->
  exists post',
    post = Ev_puts msg_disconnected :: Ev_disconnect :: post' /\
    (post' = [] \/ exists a post'', post' = Ev_accept a :: post'').
Proof.
  intros T Hrr.
  change (pre ++ Ev_read len rr :: post) with (pre ++ [Ev_read len rr] ++ post) in T.
  rewrite app_assoc in T.
  destruct (paused_split _ _ _ T) as [q2 [qf [T1 [T2 Hqf]]]].
  destruct (server_run_split _ _ _ _ _ T1) as [qa [qb [_ [S1 S2]]]].
  simpl in S2. injection S2 as <-.
  destruct qa; simpl in S1; try discriminate.
  replace (rr <? 0) with true in S1 by (symmetry; apply Z.ltb_lt; lia).
  injection S1 as <-.
  destruct post as [|e post]; cbn [server_run] in T2.
  { injection T2 as <-. destruct Hqf; discriminate. }
  destruct (server_step ReadFailed e) as [q3|] eqn:S3; [| discriminate].
  destruct e; try discriminate.
  destruct (puts_step_inv _ _ _ S3) as [[? _]|[[? _]|[[? _]|[[? _]|[_ [-> ->]]]]]];
    try discriminate.
  destruct post as [|e post]; cbn [server_run] in T2.
  { injection T2 as <-. destruct Hqf; discriminate. }
  destruct e; simpl in T2; try discriminate.
  exists post. split; [reflexivity |].
  destruct post as [|e' post]; [now left | right].
  simpl in T2. destruct e'; simpl in T2; try discriminate.
  eauto.
Qed.

(** ** The handshake gates the stream phase *)

(** C7 as stated fails: with a handshake write that fails the client
    returns without a single stream write. *)
Lemma stream_after_failed_handshake_counterexample :
  ~ (forall (P : provider) (fuel : nat) (b : list Z) (rv : Z),
        0 <= connect_res P ->
        result (test_tcp_client P fuel (init b)) = Done rv ->
        (1 <= List.length (stream_writes (trace (test_tcp_client P fuel (init b)))))%nat).
Proof.
  intros H.
  assert (Hc : 0 <= connect_res Scenario.no_handshake) by discriminate.
  specialize (H Scenario.no_handshake 3%nat [] (-1) Hc eq_refl).
  vm_compute in H. lia.
Qed.

Lemma filter_write_prefix (P : provider) (t : list event) :
  filter is_write (connected_prefix P ++ t) = filter is_write t.
Proof. reflexivity. Qed.

Lemma filter_write_report_events v t rest :
  filter is_write (report_events v t ++ rest) = filter is_write rest.
Proof. unfold report_events. destruct (report_due v t); reflexivity. Qed.

(** C7, amended: the stream loop is entered exactly when the handshake
    write succeeded.  After a failed handshake write the client logs,
    disconnects and returns the negative result, having read no clock and
    written nothing more; after a successful one its next write is a
    stream write of the 2048 filler bytes. *)
Theorem stream_entered_iff_handshake_ok (P : provider) (fuel : nat) (b : list Z) :
  0 <= connect_res P ->
  let r := test_tcp_client P fuel (init b) in
  (write_res P 0 < 0 ->
     result r = Done (write_res P 0) /\
     trace r = connected_prefix P ++
               [Ev_write hello (write_res P 0); Ev_puts msg_write_error; Ev_disconnect] /\
     stream_writes (trace r) = [] /\
     calls is_now (trace r) = 0%nat) /\
  (0 <= write_res P 0 -> (1 <= fuel)%nat ->
     exists rest, stream_writes (trace r) = Ev_write filler (write_res P 1) :: rest).
Proof.
  intros Hc r. split.
  - intros Hw. subst r. rewrite (client_handshake_failed P fuel (init b) Hc Hw).
    repeat split.
  - intros Hw Hf. subst r. rewrite (client_streams P fuel (init b) Hc Hw).
    cbv zeta. cbn [trace snd]. unfold stream_writes.
    rewrite filter_write_prefix. cbn [filter is_write tl].
    destruct fuel as [|fuel]; [lia |].
    match goal with |- context [stream_loop P (S fuel) ?v0 ?s0] =>
      destruct (stream_loop_first_write P fuel v0 s0) as [post E]
    end.
    rewrite E. cbn [app filter is_now is_write].
    rewrite <- app_assoc, filter_write_report_events. cbn [app filter is_write].
    cbn [buf next_now next_write memset_state set_buf n_write init].
    rewrite firstn_filler. eexists. reflexivity.
Qed.

Lemma stream_entered_iff_handshake_ok_witness :
  0 <= connect_res Scenario.fifth_write_fails /\
  0 <= write_res Scenario.fifth_write_fails 0 /\
  exists rest,
    stream_writes (trace (test_tcp_client Scenario.fifth_write_fails 1 (init []))) =
    Ev_write filler (write_res Scenario.fifth_write_fails 1) :: rest.
Proof.
  split; [discriminate |]. split; [discriminate |].
  assert (Hc : 0 <= connect_res Scenario.fifth_write_fails) by discriminate.
  assert (Hw : 0 <= write_res Scenario.fifth_write_fails 0) by discriminate.
  exact (proj2 (stream_entered_iff_handshake_ok Scenario.fifth_write_fails 1 [] Hc)
               Hw (le_n 1)).
Defined.

(** ** The byte counter *)

(** C8 as stated fails: a write that returns 1000 adds 2048. *)
Lemma sentlen_adds_returned_count_counterexample :
  ~ (forall (P : provider) (v v' : client_vars) (s : state),
        0 <= write_res P (n_write s) ->
        result (stream_write P v s) = Done (inr v') ->
        sentlen v' = sentlen v + write_res P (n_write s)).
Proof.
  intros H.
  specialize (H Scenario.short_write
                {| res := 7; sentlen := 0; tick1 := 0; tick2 := 0 |}
                {| res := 1000; sentlen := 2048; tick1 := 0; tick2 := 0 |}
                (next_write (init []))).
  simpl in H. specialize (H ltac:(discriminate) eq_refl). discriminate.
Qed.

(** C8, amended: a stream write that succeeds adds the size of the buffer,
    2048, to the byte counter (a [uint64_t]), whatever count it returned;
    a write that fails leaves the counter as it was. *)
Theorem sentlen_adds_buffer_size (P : provider) (v : client_vars) (s : state) :
  let r := write_res P (n_write s) in
  (0 <= r ->
     exists v', result (stream_write P v s) = Done (inr v') /\
                sentlen v' = u64 (sentlen v + 2048) /\
                (0 <= sentlen v -> sentlen v + 2048 < UINT64_MOD ->
                 sentlen v' = sentlen v + 2048)) /\
  (r < 0 ->
     exists v', result (stream_write P v s) = Done (inl v') /\
                sentlen v' = sentlen v).
Proof.
  intros r. rewrite stream_write_eq. cbv zeta. fold r. split; intros Hr.
  - replace (r <? 0) with false by (symmetry; apply Z.ltb_ge; lia).
    exists (wrote v r). split; [reflexivity |]. split; [reflexivity |].
    intros H0 H1. unfold wrote, u64. cbn [sentlen].
    apply Z.mod_small. change sizeof_buf with 2048. lia.
  - replace (r <? 0) with true by (symmetry; apply Z.ltb_lt; lia).
    exists (broke v r). split; reflexivity.
Qed.

Lemma sentlen_adds_buffer_size_witness :
  0 <= write_res Scenario.short_write 1 /\
  exists v',
    result (stream_write Scenario.short_write
              {| res := 7; sentlen := 4096; tick1 := 0; tick2 := 0 |}
              (next_write (init []))) = Done (inr v') /\
    sentlen v' = 6144.
Proof.
  split; [discriminate |].
  destruct (proj1 (sentlen_adds_buffer_size Scenario.short_write
                     {| res := 7; sentlen := 4096; tick1 := 0; tick2 := 0 |}
                     (next_write (init []))))
    as [v' [R [S _]]]; [discriminate |].
  exists v'. split; [exact R | exact S].
Defined.

(** ** The filler buffer *)

Lemma memset_whole_buffer (s : state) :
  List.length (buf s) = Z.to_nat sizeof_buf -> buf (memset_state s) = filler.
Proof.
  intros L. unfold memset_state, set_buf. cbn [buf].
  rewrite skipn_all2 by lia. rewrite app_nil_r. reflexivity.
Qed.

(** C9: from the memset on, the buffer holds 2048 bytes of value 97: it
    does at whatever point the run is observed (after any number of
    iterations of the stream loop, and on return), and every stream write
    sends exactly these bytes. *)
Theorem filler_buffer_constant (P : provider) (fuel : nat) (b : list Z) :
  List.length b = Z.to_nat sizeof_buf ->
  let r := test_tcp_client P fuel (init b) in
  buf (final r) = filler /\
  List.length (buf (final r)) = 2048%nat /\
  Forall (fun x => x = 97) (buf (final r)) /\
  Forall (fun e => exists rv, e = Ev_write filler rv) (stream_writes (trace r)).
Proof.
  intros L r.
  assert (M : buf (memset_state (init b)) = filler) by (apply memset_whole_buffer; exact L).
  assert (H : buf (final r) = filler /\
              Forall (fun e => exists rv, e = Ev_write filler rv) (stream_writes (trace r))).
  { subst r. destruct (Z.ltb_spec (connect_res P) 0) as [Hc|Hc].
    - rewrite (client_connect_failed P fuel (init b) Hc). split; [exact M | constructor].
    - destruct (Z.ltb_spec (write_res P (n_write (init b))) 0) as [Hw|Hw].
      + rewrite (client_handshake_failed P fuel (init b) Hc Hw).
        split; [exact M | constructor].
      + rewrite (client_streams P fuel (init b) Hc Hw). cbv zeta.
        cbn [final trace fst snd].
        match goal with |- context [stream_loop P fuel ?v0 ?s0] =>
          destruct (stream_loop_frame P fuel v0 s0) as [B [_ W]]; cbv zeta in B, W
        end.
        cbn [buf next_now next_write] in B, W. split.
        * rewrite B. exact M.
        * unfold stream_writes. rewrite filter_write_prefix.
          cbn [filter is_write is_now tl]. rewrite filter_app.
          apply Forall_app. split.
          -- unfold memset_state, set_buf in W. cbn [buf] in W.
             rewrite firstn_filler in W. exact W.
          -- destruct (result _); constructor. }
  destruct H as [B W]. split; [exact B |]. rewrite B.
  split; [| split; [| exact W]].
  - unfold filler. rewrite repeat_length. reflexivity.
  - unfold filler. apply Forall_forall. intros x Hx. exact (repeat_spec _ _ _ Hx).
Qed.

Lemma filler_buffer_constant_witness :
  List.length (repeat 0 2048) = Z.to_nat sizeof_buf /\
  buf (final (test_tcp_client Scenario.fifth_write_fails 8 (init (repeat 0 2048)))) = filler.
Proof.
  split; [reflexivity |].
  apply (filler_buffer_constant Scenario.fifth_write_fails 8 (repeat 0 2048)).
  reflexivity.
Defined.

(** ** The reporting window *)

(** C2: whenever the head of the loop reports, it leaves the byte counter
    at 0 and the time reference at the clock value it has just read (and
    otherwise leaves both alone); so over a whole run every report counts
    2048 bytes for each successful write of its own window and for no
    other. *)
Theorem report_resets_window (P : provider) (v : client_vars) (s : state) :
  let t := u32 (clock P (n_now s)) in
  let r := report_check P v s in
  (2000 * 1000 <= u32 (t - tick1 v) ->
     trace r = [Ev_now t;
                Ev_printf fmt_speed (send_speed (sentlen v) (u32 (t - tick1 v)))] /\
     exists v', result r = Done v' /\ sentlen v' = 0 /\ tick1 v' = t) /\
  (u32 (t - tick1 v) < 2000 * 1000 ->
     trace r = [Ev_now t] /\
     exists v', result r = Done v' /\ sentlen v' = sentlen v /\ tick1 v' = tick1 v) /\
  (forall fuel s0,
     Forall report_ok (client_reports (trace (test_tcp_client P fuel s0)))).
Proof.
  intros t r. subst r. rewrite report_check_eq. cbv zeta. fold t.
  unfold after_report, report_events, report_due. cbn [result trace fst snd].
  split; [| split].
  - intros H. replace (u32 (t - tick1 v) >=? 2000 * 1000) with true
      by (symmetry; apply Z.geb_le; exact H).
    split; [reflexivity |]. eexists. split; [reflexivity |]. split; reflexivity.
  - intros H. replace (u32 (t - tick1 v) >=? 2000 * 1000) with false
      by (symmetry; rewrite Z.geb_leb; apply Z.leb_gt; exact H).
    split; [reflexivity |]. eexists. split; [reflexivity |]. split; reflexivity.
  - intros fuel s0. apply client_reports_ok.
Qed.

Lemma report_resets_window_witness :
  2000 * 1000 <= u32 (u32 (clock Scenario.one_window 2) - 0) /\
  exists v',
    result (report_check Scenario.one_window
              {| res := 2048; sentlen := 2048; tick1 := 0; tick2 := 0 |}
              (next_now (next_now (init [])))) = Done v' /\
    sentlen v' = 0 /\ tick1 v' = 2000000.
Proof.
  split; [discriminate |].
  refine (proj2 (proj1 (report_resets_window Scenario.one_window
            {| res := 2048; sentlen := 2048; tick1 := 0; tick2 := 0 |}
            (next_now (next_now (init [])))) _)).
  discriminate.
Defined.

(** ** Single-precision arithmetic: rounding error

    The operations of line 109 go through the library's
    [binary_round_aux]: shift the mantissa to 24 bits while keeping track
    of what is lost, round to nearest even, renormalise.  In the normal
    range the result is within half a unit in the last place. *)

Module F32Facts.
Import F32.

Lemma pow2_pos e : (0 < pow2 e)%Q.
Proof. apply Qpower_0_lt. reflexivity. Qed.

Lemma pow2_add a b : (pow2 (a + b) == pow2 a * pow2 b)%Q.
Proof. apply Qpower_plus. discriminate. Qed.

Lemma pow2_succ e : (pow2 (e + 1) == 2 * pow2 e)%Q.
Proof. rewrite pow2_add. change (pow2 1) with 2%Q. ring. Qed.

Lemma pow2_Z e : 0 <= e -> (pow2 e == inject_Z (2 ^ e))%Q.
Proof. intros H. unfold pow2. rewrite Zpower_Qpower by exact H. reflexivity. Qed.

Lemma pow2_le a b : a <= b -> (pow2 a <= pow2 b)%Q.
Proof. intros H. apply Qpower_le_compat_l; [exact H | discriminate]. Qed.

Lemma F2Q_plus a b e : (F2Q (a + b) e == F2Q a e + F2Q b e)%Q.
Proof. unfold F2Q. rewrite inject_Z_plus. ring. Qed.

Lemma F2Q_1 e : (F2Q 1 e == pow2 e)%Q.
Proof. unfold F2Q. ring. Qed.

Lemma F2Q_double m e : (F2Q (2 * m) e == F2Q m (e + 1))%Q.
Proof. unfold F2Q. rewrite inject_Z_mult, pow2_succ. ring. Qed.

Lemma F2Q_le a b e : a <= b -> (F2Q a e <= F2Q b e)%Q.
Proof.
  intros H. unfold F2Q. apply Qmult_le_compat_r.
  - rewrite <- Zle_Qle. exact H.
  - apply Qlt_le_weak, pow2_pos.
Qed.

Lemma digits2_pos_spec p :
  2 ^ (Zpos (digits2_pos p) - 1) <= Zpos p < 2 ^ Zpos (digits2_pos p).
Proof.
  induction p as [p IH|p IH|]; cbn [digits2_pos].
  - rewrite Pos2Z.inj_succ.
    replace (Z.succ (Zpos (digits2_pos p)) - 1) with (Z.succ (Zpos (digits2_pos p) - 1)) by lia.
    rewrite !Z.pow_succ_r by lia.
    assert (E : Zpos p~1 = 2 * Zpos p + 1) by reflexivity. lia.
  - rewrite Pos2Z.inj_succ.
    replace (Z.succ (Zpos (digits2_pos p)) - 1) with (Z.succ (Zpos (digits2_pos p) - 1)) by lia.
    rewrite !Z.pow_succ_r by lia.
    assert (E : Zpos p~0 = 2 * Zpos p) by reflexivity. lia.
  - simpl. lia.
Qed.

Lemma digits2_unique p d :
  2 ^ (d - 1) <= Zpos p < 2 ^ d -> Zpos (digits2_pos p) = d.
Proof.
  intros [L U]. pose proof (digits2_pos_spec p) as [L' U'].
  assert (0 < d).
  { destruct (Z.ltb_spec 0 d); [assumption |]. exfalso.
    destruct (Z.eq_dec d 0) as [->|]; [simpl in U; lia |].
    rewrite Z.pow_neg_r in U by lia. lia. }
  destruct (Z.lt_trichotomy (Zpos (digits2_pos p)) d) as [H1|[H1|H1]]; [| exact H1 |].
  - assert (2 ^ Zpos (digits2_pos p) <= 2 ^ (d - 1)) by (apply Z.pow_le_mono_r; lia). lia.
  - assert (2 ^ d <= 2 ^ (Zpos (digits2_pos p) - 1)) by (apply Z.pow_le_mono_r; lia). lia.
Qed.

(** One shift to the right keeps the position of x and halves the
    mantissa. *)
Lemma shr_1_inb m r s e x :
  0 <= m ->
  inb m e (loc_of_shr_record {| shr_m := m; shr_r := r; shr_s := s |}) x ->
  let mrs := shr_1 {| shr_m := m; shr_r := r; shr_s := s |} in
  inb (shr_m mrs) (e + 1) (loc_of_shr_record mrs) x /\
  shr_m mrs = m / 2.
Proof.
  intros Hm H mrs.
  assert (D : exists k b, m = 2 * k + b /\ (b = 0 \/ b = 1) /\ shr_m mrs = k /\
                          shr_r mrs = (b =? 1) /\ shr_s mrs = orb r s).
  { subst mrs. destruct m as [|[p|p|]|]; try lia; cbn.
    - exists 0, 0. repeat split; auto.
    - exists (Zpos p), 1. repeat split; auto.
    - exists (Zpos p), 0. repeat split; auto.
    - exists 0, 1. repeat split; auto. }
  destruct D as [k [b [Em [Hb [Ek [Er Es]]]]]].
  split.
  2:{ rewrite Ek, Em. destruct Hb as [-> | ->].
      - rewrite Z.add_0_r, Z.mul_comm, Z.div_mul; lia.
      - apply Z.div_unique with 1; lia. }
  destruct mrs as [m' r' s']. cbn [shr_m shr_r shr_s] in *. subst m' r' s'.
  pose proof (pow2_pos e) as Pp. pose proof (pow2_succ e) as Ps.
  assert (F0 : (F2Q m e == F2Q k (e + 1) + inject_Z b * pow2 e)%Q).
  { rewrite Em, F2Q_plus, F2Q_double. unfold F2Q at 2. reflexivity. }
  assert (F1 : (F2Q (m + 1) e == F2Q k (e + 1) + inject_Z b * pow2 e + pow2 e)%Q).
  { rewrite F2Q_plus, F0, F2Q_1. reflexivity. }
  assert (F2 : (F2Q (k + 1) (e + 1) == F2Q k (e + 1) + 2 * pow2 e)%Q).
  { rewrite F2Q_plus, F2Q_1, Ps. reflexivity. }
  unfold inb, mid in *. rewrite ?F2, ?Ps.
  destruct Hb as [-> | ->]; cbn [Z.eqb Pos.eqb]; change (inject_Z 0) with 0%Q in *;
    change (inject_Z 1) with 1%Q in *;
    destruct r, s; cbn [orb loc_of_shr_record] in *; rewrite ?F0, ?F1 in H;
      lra.
Qed.

Lemma inb_bounds m e l x :
  inb m e l x -> (F2Q m e <= x /\ x < F2Q (m + 1) e)%Q.
Proof.
  pose proof (pow2_pos e) as Pp.
  assert (F1 : (F2Q (m + 1) e == F2Q m e + pow2 e)%Q) by (rewrite F2Q_plus, F2Q_1; reflexivity).
  unfold inb, mid. destruct l as [|[| |]]; rewrite ?F1; intros H; lra.
Qed.

Lemma iter_shr_1 (x : Q) (m0 e0 : Z) (p : positive) :
  forall k mrs,
    0 <= k -> 0 <= shr_m mrs ->
    inb (shr_m mrs) (e0 + k) (loc_of_shr_record mrs) x ->
    shr_m mrs = m0 / 2 ^ k ->
    let mrs' := iter_pos shr_1 p mrs in
    0 <= shr_m mrs' /\
    inb (shr_m mrs') (e0 + (k + Zpos p)) (loc_of_shr_record mrs') x /\
    shr_m mrs' = m0 / 2 ^ (k + Zpos p).
Proof.
  assert (Step : forall k mrs,
             0 <= k -> 0 <= shr_m mrs ->
             inb (shr_m mrs) (e0 + k) (loc_of_shr_record mrs) x ->
             shr_m mrs = m0 / 2 ^ k ->
             0 <= shr_m (shr_1 mrs) /\
             inb (shr_m (shr_1 mrs)) (e0 + (k + 1)) (loc_of_shr_record (shr_1 mrs)) x /\
             shr_m (shr_1 mrs) = m0 / 2 ^ (k + 1)).
  { intros k [m r s] Hk Hm Hi Hd. cbn [shr_m] in Hm, Hi, Hd.
    destruct (shr_1_inb m r s (e0 + k) x Hm Hi) as [Hi' Hd'].
    cbv zeta in Hi', Hd'. rewrite Hd'. split; [apply Z.div_pos; lia |].
    split.
    - rewrite <- Hd'. replace (e0 + (k + 1)) with (e0 + k + 1) by lia. exact Hi'.
    - rewrite Hd, Z.div_div by lia. rewrite Z.pow_add_r by lia. reflexivity. }
  induction p as [p IH|p IH|]; intros k mrs Hk Hm Hi Hd; cbn [iter_pos].
  - destruct (Step k mrs Hk Hm Hi Hd) as [A1 [A2 A3]].
    destruct (IH (k + 1) _ ltac:(lia) A1 A2 A3) as [B1 [B2 B3]].
    destruct (IH (k + 1 + Zpos p) _ ltac:(lia) B1 B2 B3) as [C1 [C2 C3]].
    replace (k + Zpos p~1) with (k + 1 + Zpos p + Zpos p) by lia. auto.
  - destruct (IH k _ Hk Hm Hi Hd) as [B1 [B2 B3]].
    destruct (IH (k + Zpos p) _ ltac:(lia) B1 B2 B3) as [C1 [C2 C3]].
    replace (k + Zpos p~0) with (k + Zpos p + Zpos p) by lia. auto.
  - apply Step; assumption.
Qed.

Lemma loc_of_record_of_loc m l :
  loc_of_shr_record (shr_record_of_loc m l) = l /\ shr_m (shr_record_of_loc m l) = m.
Proof. destruct l as [|[| |]]; split; reflexivity. Qed.

(** Shifting right by n places. *)
Lemma shr_inb m e l x n :
  0 <= m -> 0 <= n -> inb m e l x ->
  exists mrs,
    shr (shr_record_of_loc m l) e n = (mrs, e + n) /\
    shr_m mrs = m / 2 ^ n /\
    inb (shr_m mrs) (e + n) (loc_of_shr_record mrs) x.
Proof.
  intros Hm Hn Hi. destruct (loc_of_record_of_loc m l) as [L1 L2].
  destruct n as [|p|p]; [| | lia].
  - exists (shr_record_of_loc m l). cbn [shr]. rewrite Z.add_0_r, L1, L2.
    split; [reflexivity |]. split; [| exact Hi].
    simpl. rewrite Z.div_1_r. reflexivity.
  - exists (iter_pos shr_1 p (shr_record_of_loc m l)). cbn [shr].
    split; [reflexivity |].
    destruct (iter_shr_1 x m e p 0 (shr_record_of_loc m l)) as [_ [A B]].
    + lia.
    + rewrite L2. exact Hm.
    + rewrite L1, L2, Z.add_0_r. exact Hi.
    + rewrite L2. simpl. rewrite Z.div_1_r. reflexivity.
    + cbv zeta in A, B. split; [exact B |]. exact A.
Qed.

Lemma round_nearest_even_close m e l x :
  inb m e l x ->
  let M := round_nearest_even m l in
  (M = m \/ M = m + 1) /\
  (F2Q M e - x <= (1 # 2) * pow2 e)%Q /\ (x - F2Q M e <= (1 # 2) * pow2 e)%Q.
Proof.
  intros H M. subst M. pose proof (pow2_pos e) as Pp.
  assert (F1 : (F2Q (m + 1) e == F2Q m e + pow2 e)%Q) by (rewrite F2Q_plus, F2Q_1; reflexivity).
  unfold inb, mid in H.
  destruct l as [|[| |]]; cbn [round_nearest_even];
    try (destruct (Z.even m)); rewrite ?F1; (split; [auto |]); rewrite ?F1 in H; lra.
Qed.

Lemma fexp_normal E : -125 <= E -> fexp prec emax E = E - 24.
Proof. intros H. unfold fexp, emin, prec, emax. lia. Qed.

Lemma Zdigits2_bounds m d : 0 < m -> (Zdigits2 m = d <-> 2 ^ (d - 1) <= m < 2 ^ d).
Proof.
  intros H. destruct m as [|p|p]; try lia. cbn [Zdigits2]. split.
  - intros <-. apply digits2_pos_spec.
  - apply digits2_unique.
Qed.

(** Rounding to nearest even, in the normal range, is within half a unit
    in the last place, that is within 2^-24 of the value. *)
Lemma binary_round_aux_correct sx mx ex lx x :
  2 ^ 23 <= mx ->
  inb mx ex lx x ->
  -125 <= Zdigits2 mx + ex <= 127 ->
  exists m e,
    binary_round_aux prec emax sx mx ex lx = S754_finite sx m e /\
    2 ^ 23 <= Zpos m < 2 ^ 24 /\
    Zdigits2 mx + ex - 24 <= e <= Zdigits2 mx + ex - 23 /\
    (F2Q (Zpos m) e - x <= (1 # 2 ^ 24) * x)%Q /\
    (x - F2Q (Zpos m) e <= (1 # 2 ^ 24) * x)%Q.
Proof.
  intros Hmx Hin HE.
  set (d := Zdigits2 mx) in *.
  assert (Hpos : 0 < mx) by lia.
  assert (Hd : 2 ^ (d - 1) <= mx < 2 ^ d) by (apply Zdigits2_bounds; [exact Hpos | reflexivity]).
  assert (Hd24 : 24 <= d).
  { destruct (Z.ltb_spec d 24) as [C|C]; [| exact C]. exfalso.
    assert (2 ^ d <= 2 ^ 23) by (apply Z.pow_le_mono_r; lia). lia. }
  unfold binary_round_aux, shr_fexp. fold d.
  rewrite fexp_normal by lia.
  replace (d + ex - 24 - ex) with (d - 24) by lia.
  assert (Hmx0 : 0 <= mx) by lia.
  assert (Hn0 : 0 <= d - 24) by lia.
  destruct (shr_inb mx ex lx x (d - 24) Hmx0 Hn0 Hin) as [mrs [S1 [S2 S3]]].
  rewrite S1.
  set (m1 := shr_m mrs) in *. set (e1 := ex + (d - 24)) in *.
  assert (Hm1 : 2 ^ 23 <= m1 < 2 ^ 24).
  { rewrite S2. split.
    - apply Z.div_le_lower_bound; [lia |].
      rewrite <- Z.pow_add_r by lia. replace (d - 24 + 23) with (d - 1) by lia. lia.
    - apply Z.div_lt_upper_bound; [lia |].
      rewrite <- Z.pow_add_r by lia. replace (d - 24 + 24) with d by lia. lia. }
  destruct (round_nearest_even_close m1 e1 _ x S3) as [HM [R1 R2]].
  set (M := round_nearest_even m1 (loc_of_shr_record mrs)) in *.
  pose proof (pow2_pos e1) as Pp.
  assert (Hx : (inject_Z (2 ^ 23) * pow2 e1 <= x)%Q).
  { destruct (inb_bounds _ _ _ _ S3) as [B _].
    apply Qle_trans with (F2Q m1 e1); [| exact B].
    apply (F2Q_le (2 ^ 23) m1 e1). lia. }
  change (inject_Z (2 ^ 23)) with (8388608 # 1)%Q in Hx.
  change (1 # 2 ^ 24)%Q with (1 # 16777216)%Q.
  destruct (Z.eq_dec M (2 ^ 24)) as [Ecarry|Ecarry].
  - (* the mantissa rounded up to 2^24 *)
    rewrite Ecarry in *.
    exists (8388608%positive), (e1 + 1).
    assert (F : (F2Q (2 ^ 24) e1 == F2Q (Zpos 8388608) (e1 + 1))%Q).
    { rewrite <- F2Q_double. reflexivity. }
    split.
    + change (Zdigits2 (2 ^ 24)) with 25.
      rewrite fexp_normal by (subst e1; lia).
      replace (25 + e1 - 24 - e1) with 1 by lia.
      cbn. subst e1.
      replace (ex + (d - 24) + 1 <=? 104) with true by (symmetry; apply Z.leb_le; lia).
      reflexivity.
    + split; [simpl; lia |]. split; [subst e1; lia |].
      rewrite <- F. split; lra.
  - assert (HM' : 2 ^ 23 <= M < 2 ^ 24) by lia.
    assert (HdM : Zdigits2 M = 24) by (apply Zdigits2_bounds; simpl; lia).
    destruct M as [|pM|pM]; try lia.
    exists pM, e1. split.
    + rewrite HdM. rewrite fexp_normal by (subst e1; lia).
      replace (24 + e1 - 24 - e1) with 0 by lia.
      cbn [shr shr_record_of_loc shr_m]. subst e1.
      replace (ex + (d - 24) <=? emax - prec) with true
        by (symmetry; apply Z.leb_le; unfold emax, prec; lia).
      reflexivity.
    + split; [exact HM' |]. split; [subst e1; lia |]. split; lra.
Qed.

Lemma rounds_of_diff q x :
  (q - x <= (1 # 2 ^ 24) * x)%Q -> (x - q <= (1 # 2 ^ 24) * x)%Q -> rounds q x.
Proof. unfold rounds, ulp_half. change (1 # 2 ^ 24)%Q with (1 # 16777216)%Q. intros; split; lra. Qed.

Lemma Zdigits2_range m a b :
  0 <= a -> 2 ^ a <= m < 2 ^ b -> a + 1 <= Zdigits2 m <= b.
Proof.
  intros Ha [L U].
  assert (Hm : 0 < m) by (pose proof (Z.pow_pos_nonneg 2 a); lia).
  destruct (proj1 (Zdigits2_bounds m (Zdigits2 m) Hm) eq_refl) as [L' U'].
  split.
  - destruct (Z.ltb_spec (Zdigits2 m) (a + 1)) as [C|C]; [| exact C]. exfalso.
    assert (2 ^ Zdigits2 m <= 2 ^ a) by (apply Z.pow_le_mono_r; lia). lia.
  - destruct (Z.ltb_spec b (Zdigits2 m)) as [C|C]; [| exact C]. exfalso.
    assert (2 ^ b <= 2 ^ (Zdigits2 m - 1)) by (apply Z.pow_le_mono_r; lia). lia.
Qed.

Lemma F2Q_mult ma ea mb eb :
  (F2Q (ma * mb) (ea + eb) == F2Q ma ea * F2Q mb eb)%Q.
Proof. unfold F2Q. rewrite inject_Z_mult, pow2_add. ring. Qed.

Lemma F2Q_pos m e : 0 < m -> (0 < F2Q m e)%Q.
Proof.
  intros H. unfold F2Q. apply Qmult_lt_0_compat; [| apply pow2_pos].
  change 0%Q with (inject_Z 0). rewrite <- Zlt_Qlt. exact H.
Qed.

Lemma mul_correct a qa lo1 hi1 b qb lo2 hi2 :
  represents a qa lo1 hi1 -> represents b qb lo2 hi2 ->
  -172 <= lo1 + lo2 -> hi1 + hi2 <= 79 ->
  exists q,
    represents (mul a b) q (lo1 + lo2 + 23) (hi1 + hi2 + 25) /\ rounds q (qa * qb).
Proof.
  intros [ma [ea [-> [Hma [Hea ->]]]]] [mb [eb [-> [Hmb [Heb ->]]]]] Hlo Hhi.
  unfold mul, SFmul. cbn [xorb].
  assert (Hp : 2 ^ 46 <= Zpos (ma * mb) < 2 ^ 48).
  { rewrite Pos2Z.inj_mul. change (2 ^ 46) with (2 ^ 23 * 2 ^ 23).
    change (2 ^ 48) with (2 ^ 24 * 2 ^ 24). nia. }
  pose proof (Zdigits2_range _ 46 48 ltac:(lia) Hp) as Hd.
  destruct (binary_round_aux_correct false (Zpos (ma * mb)) (ea + eb) loc_Exact
              (F2Q (Zpos ma) ea * F2Q (Zpos mb) eb)) as [m [e [E [Hm [He [R1 R2]]]]]].
  - lia.
  - unfold inb. rewrite Pos2Z.inj_mul, F2Q_mult. reflexivity.
  - lia.
  - exists (F2Q (Zpos m) e). split.
    + exists m, e. repeat split; try lia. exact E.
    + apply rounds_of_diff; assumption.
Qed.

(** The location computed from a remainder: x = (q + r / d) 2^e. *)
Lemma new_location_inb (d q r e : Z) (x : Q) :
  0 < d -> 0 <= r < d ->
  (x * inject_Z d == F2Q q e * inject_Z d + inject_Z r * pow2 e)%Q ->
  inb q e (new_location d r) x.
Proof.
  intros Hd Hr Hx.
  pose proof (pow2_pos e) as Pp.
  assert (F1 : (F2Q (q + 1) e == F2Q q e + pow2 e)%Q) by (rewrite F2Q_plus, F2Q_1; reflexivity).
  assert (HD : (0 < inject_Z d)%Q) by (change 0%Q with (inject_Z 0); rewrite <- Zlt_Qlt; exact Hd).
  assert (HR : (0 <= inject_Z r)%Q) by (change 0%Q with (inject_Z 0); rewrite <- Zle_Qle; lia).
  assert (HRD : (inject_Z r < inject_Z d)%Q) by (rewrite <- Zlt_Qlt; lia).
  set (D := inject_Z d) in *. set (R := inject_Z r) in *.
  set (P := pow2 e) in *. set (A := F2Q q e) in *.
  assert (Cmp : forall c, Z.compare (2 * r) d = c ->
                  match c with
                  | Lt => (2 * R < D)%Q
                  | Eq => (2 * R == D)%Q
                  | Gt => (D < 2 * R)%Q
                  end).
  { intros c <-. subst R D. destruct (Z.compare_spec (2 * r) d) as [C|C|C].
    - rewrite <- C, inject_Z_mult. reflexivity.
    - change 2%Q with (inject_Z 2). rewrite <- inject_Z_mult, <- Zlt_Qlt. exact C.
    - change 2%Q with (inject_Z 2). rewrite <- inject_Z_mult, <- Zlt_Qlt. exact C. }
  assert (Lo : r <> 0 -> (A < x)%Q).
  { intros Hr0. assert (0 < R)%Q.
    { subst R. change 0%Q with (inject_Z 0). rewrite <- Zlt_Qlt. lia. }
    assert (0 < R * P)%Q by (apply Qmult_lt_0_compat; assumption).
    apply Qnot_le_lt. intros C.
    assert ((x - A) * D <= 0)%Q by nra. lra. }
  assert (Up : (x < A + P)%Q).
  { apply Qnot_le_lt. intros C.
    assert (0 <= (x - A - P) * D)%Q by (apply Qmult_le_0_compat; lra).
    assert (R * P < D * P)%Q by (apply Qmult_lt_compat_r; assumption).
    lra. }
  assert (Below : (2 * R < D)%Q -> (x < A + (1 # 2) * P)%Q).
  { intros C. apply Qnot_le_lt. intros C'.
    assert (0 <= (x - A - (1 # 2) * P) * D)%Q by (apply Qmult_le_0_compat; lra).
    assert (2 * R * P < D * P)%Q by (apply Qmult_lt_compat_r; assumption).
    lra. }
  assert (Above : (D < 2 * R)%Q -> (A + (1 # 2) * P < x)%Q).
  { intros C. apply Qnot_le_lt. intros C'.
    assert (0 <= (A + (1 # 2) * P - x) * D)%Q by (apply Qmult_le_0_compat; lra).
    assert (D * P < 2 * R * P)%Q by (apply Qmult_lt_compat_r; assumption).
    lra. }
  assert (Middle : (2 * R == D)%Q -> (x == A + (1 # 2) * P)%Q).
  { intros C. apply (Qmult_inj_r _ _ D); [lra |].
    assert (2 * R * P == D * P)%Q by (rewrite C; reflexivity). lra. }
  assert (E : r = 0 -> inb q e loc_Exact x).
  { intros Hr0. unfold inb. fold A. apply (Qmult_inj_r _ _ D); [lra |].
    assert (R == 0)%Q by (subst R; rewrite Hr0; reflexivity). nra. }
  unfold new_location, new_location_even, new_location_odd.
  destruct (Z.even d) eqn:Ev; destruct (Z.eqb_spec r 0) as [Hr0|Hr0]; auto;
    specialize (Lo Hr0).
  - pose proof (Cmp _ eq_refl) as C.
    destruct (2 * r ?= d); unfold inb, mid; fold A P; rewrite ?F1; auto.
  - (* d odd: the middle is not reached *)
    assert (Hodd : 2 * r <> d).
    { intros C. rewrite <- C, Z.even_mul in Ev. discriminate. }
    destruct (Z.compare_spec (2 * r + 1) d) as [C|C|C];
      unfold inb, mid; fold A P; rewrite ?F1.
    + split; [exact Lo |]. apply Below.
      specialize (Cmp Lt). apply Cmp. apply Z.compare_lt_iff. lia.
    + split; [exact Lo |]. apply Below.
      specialize (Cmp Lt). apply Cmp. apply Z.compare_lt_iff. lia.
    + split; [| exact Up]. apply Above.
      specialize (Cmp Gt). apply Cmp. apply Z.compare_gt_iff. lia.
Qed.

Lemma pow2_neg24 e : (pow2 (e - 24) * (16777216 # 1) == pow2 e)%Q.
Proof.
  replace (e - 24) with (e + -24) by lia. rewrite pow2_add.
  change (pow2 (-24)) with (/ (16777216 # 1))%Q. field.
Qed.

Lemma div_correct a qa lo1 hi1 b qb lo2 hi2 :
  represents a qa lo1 hi1 -> represents b qb lo2 hi2 ->
  -125 <= lo1 - hi2 -> hi1 - lo2 <= 126 ->
  exists q y,
    represents (div a b) q (lo1 - hi2 - 24) (hi1 - lo2 - 22) /\
    (y * qb == qa)%Q /\ (0 < y)%Q /\ rounds q y.
Proof.
  intros [ma [ea [-> [Hma [Hea ->]]]]] [mb [eb [-> [Hmb [Heb ->]]]]] Hlo Hhi.
  unfold div, SFdiv, SFdiv_core_binary. cbn [xorb Zdigits2].
  rewrite (digits2_unique ma 24) by (simpl; lia).
  rewrite (digits2_unique mb 24) by (simpl; lia).
  rewrite fexp_normal by lia.
  replace (Z.min (24 + ea - (24 + eb) - 24) (ea - eb)) with (ea - eb - 24) by lia.
  replace (ea - eb - (ea - eb - 24)) with 24 by lia. cbv iota.
  rewrite Z.shiftl_mul_pow2 by lia.
  pose proof (Z_div_mod (Zpos ma * 2 ^ 24) (Zpos mb) ltac:(lia)) as DM.
  destruct (Z.div_eucl (Zpos ma * 2 ^ 24) (Zpos mb)) as [q r].
  destruct DM as [Eq Hr].
  set (e' := ea - eb - 24) in *.
  set (y := (F2Q (Zpos ma) ea / F2Q (Zpos mb) eb)%Q).
  pose proof (F2Q_pos (Zpos ma) ea ltac:(lia)) as Pa.
  pose proof (F2Q_pos (Zpos mb) eb ltac:(lia)) as Pb.
  assert (Hy : (y * F2Q (Zpos mb) eb == F2Q (Zpos ma) ea)%Q).
  { subst y. field. lra. }
  assert (Hy0 : (0 < y)%Q).
  { subst y. apply Qlt_shift_div_l; [exact Pb | lra]. }
  assert (Hq : 2 ^ 23 <= q < 2 ^ 25).
  { change (2 ^ 24) with 16777216 in *. change (2 ^ 23) with 8388608 in *.
    change (2 ^ 25) with 33554432. nia. }
  pose proof (Zdigits2_range q 23 25 ltac:(lia) Hq) as Hd.
  assert (Hin : inb q e' (new_location (Zpos mb) r) y).
  { apply new_location_inb; [lia | lia |].
    pose proof (pow2_pos eb) as Ppb.
    apply (Qmult_inj_r _ _ (pow2 eb)); [lra |].
    assert (h2 : (inject_Z q * inject_Z (Zpos mb) + inject_Z r ==
                  inject_Z (Zpos ma) * (16777216 # 1))%Q).
    { rewrite <- !inject_Z_mult, <- inject_Z_plus.
      change (16777216 # 1)%Q with (inject_Z (2 ^ 24)). rewrite <- inject_Z_mult.
      rewrite Eq. f_equiv. ring. }
    assert (h3 : (pow2 e' * (16777216 # 1) == pow2 (ea - eb))%Q) by apply pow2_neg24.
    assert (h4 : (pow2 ea == pow2 (ea - eb) * pow2 eb)%Q).
    { rewrite <- pow2_add. replace (ea - eb + eb) with ea by lia. reflexivity. }
    unfold F2Q in Hy |- *.
    transitivity (inject_Z (Zpos ma) * (pow2 (ea - eb) * pow2 eb))%Q.
    - rewrite <- h4, <- Hy. ring.
    - setoid_replace ((inject_Z q * pow2 e' * inject_Z (Zpos mb) + inject_Z r * pow2 e') *
                      pow2 eb)%Q
        with (pow2 e' * (inject_Z q * inject_Z (Zpos mb) + inject_Z r) * pow2 eb)%Q by ring.
      rewrite h2.
      setoid_replace (pow2 e' * (inject_Z (Zpos ma) * (16777216 # 1)) * pow2 eb)%Q
        with (inject_Z (Zpos ma) * (pow2 e' * (16777216 # 1)) * pow2 eb)%Q by ring.
      rewrite h3. ring. }
  destruct (binary_round_aux_correct false q e' (new_location (Zpos mb) r) y)
    as [m [e [E [Hm [He [R1 R2]]]]]].
  - lia.
  - exact Hin.
  - subst e'. lia.
  - exists (F2Q (Zpos m) e), y. split; [| split; [exact Hy | split; [exact Hy0 |]]].
    + exists m, e. repeat split; try (subst e'; lia). exact E.
    + apply rounds_of_diff; assumption.
Qed.

Lemma iter_xO p k : Zpos (Pos.iter xO p k) = Zpos p * 2 ^ Zpos k.
Proof.
  induction k as [|k IH] using Pos.peano_ind.
  - cbn [Pos.iter]. change (Zpos p~0) with (2 * Zpos p). change (2 ^ 1) with 2. ring.
  - rewrite Pos.iter_succ, Pos2Z.inj_succ, Z.pow_succ_r by lia.
    change (Zpos (Pos.iter xO p k)~0) with (2 * Zpos (Pos.iter xO p k)).
    rewrite IH. ring.
Qed.

Lemma F2Q_0 m : (F2Q m 0 == inject_Z m)%Q.
Proof. unfold F2Q. change (pow2 0) with 1%Q. ring. Qed.

(** Conversion of a positive integer below 2^64. *)
Lemma of_Z_correct n :
  0 < n < 2 ^ 64 ->
  exists q, represents (of_Z n) q (-23) 41 /\ rounds q (inject_Z n).
Proof.
  intros Hn. destruct n as [|p|p]; try lia.
  unfold of_Z, binary_normalize, binary_round.
  pose proof (Zdigits2_range (Zpos p) 0 64 ltac:(lia) ltac:(simpl; lia)) as Hd.
  destruct (proj1 (Zdigits2_bounds (Zpos p) _ ltac:(lia)) eq_refl) as [L U].
  cbn [Zdigits2] in Hd, L, U.
  set (d := Zpos (digits2_pos p)) in *.
  rewrite fexp_normal by lia.
  assert (K : exists mz ez,
             shl_align p 0 (d + 0 - 24) = (mz, ez) /\
             2 ^ 23 <= Zpos mz /\ Zdigits2 (Zpos mz) + ez = d /\
             (inject_Z (Zpos p) == F2Q (Zpos mz) ez)%Q).
  { unfold shl_align. destruct (d + 0 - 24 - 0) as [|k|k] eqn:Ek.
    - exists p, 0. split; [reflexivity |].
      replace (d - 1) with 23 in L by lia. split; [exact L |].
      split; [cbn [Zdigits2]; fold d; lia | rewrite F2Q_0; reflexivity].
    - exists p, 0. split; [reflexivity |].
      assert (2 ^ 23 <= 2 ^ (d - 1)) by (apply Z.pow_le_mono_r; lia).
      split; [lia |].
      split; [cbn [Zdigits2]; fold d; lia | rewrite F2Q_0; reflexivity].
    - exists (Pos.iter xO p k), (d + 0 - 24). split; [reflexivity |].
      assert (Hk : Zpos k = 24 - d) by lia.
      assert (B : 2 ^ 23 <= Zpos (Pos.iter xO p k) < 2 ^ 24).
      { rewrite iter_xO, Hk.
        assert (P0 : 0 < 2 ^ (24 - d)) by (apply Z.pow_pos_nonneg; lia).
        assert (E23 : 2 ^ 23 = 2 ^ (d - 1) * 2 ^ (24 - d)).
        { rewrite <- Z.pow_add_r by lia. f_equal. lia. }
        assert (E24 : 2 ^ 24 = 2 ^ d * 2 ^ (24 - d)).
        { rewrite <- Z.pow_add_r by lia. f_equal. lia. }
        rewrite E23, E24. split.
        - apply Z.mul_le_mono_nonneg_r; lia.
        - apply Z.mul_lt_mono_pos_r; lia. }
      split; [lia |]. split.
      + rewrite (proj2 (Zdigits2_bounds (Zpos (Pos.iter xO p k)) 24 (Pos2Z.is_pos _)))
          by (simpl; lia).
        lia.
      + rewrite iter_xO, Hk. unfold F2Q. rewrite inject_Z_mult.
        rewrite <- pow2_Z by lia.
        setoid_replace (inject_Z (Zpos p) * pow2 (24 - d) * pow2 (d + 0 - 24))%Q
          with (inject_Z (Zpos p) * (pow2 (24 - d) * pow2 (d + 0 - 24)))%Q by ring.
        rewrite <- pow2_add. replace (24 - d + (d + 0 - 24)) with 0 by lia.
        change (pow2 0) with 1%Q. ring. }
  destruct K as [mz [ez [-> [Hmz [HE Hv]]]]].
  destruct (binary_round_aux_correct false (Zpos mz) ez loc_Exact (inject_Z (Zpos p)))
    as [m [e [E [Hm [He [R1 R2]]]]]].
  - exact Hmz.
  - exact Hv.
  - lia.
  - exists (F2Q (Zpos m) e). split.
    + exists m, e. repeat split; try lia. exact E.
    + apply rounds_of_diff; assumption.
Qed.

Lemma const_8 :
  represents (of_Z 8) (F2Q 8388608 (-20)) (-20) (-20) /\ (F2Q 8388608 (-20) == 8)%Q.
Proof.
  split; [| reflexivity].
  exists 8388608%positive, (-20). repeat split; try reflexivity; discriminate.
Qed.

Lemma const_1000 :
  represents (of_Z 1000) (F2Q 16384000 (-14)) (-14) (-14) /\ (F2Q 16384000 (-14) == 1000)%Q.
Proof.
  split; [| reflexivity].
  exists 16384000%positive, (-14). repeat split; try reflexivity; discriminate.
Qed.

Lemma const_1024 :
  represents (of_Z 1024) (F2Q 8388608 (-13)) (-13) (-13) /\ (F2Q 8388608 (-13) == 1024)%Q.
Proof.
  split; [| reflexivity].
  exists 8388608%positive, (-13). repeat split; try reflexivity; discriminate.
Qed.

Lemma rate_spec bytes dt :
  0 < dt ->
  (rate bytes dt * inject_Z dt * (1048576 # 1) == inject_Z bytes * (8000000 # 1))%Q.
Proof.
  intros H. unfold rate.
  assert (D : ~ (inject_Z dt == 0)%Q).
  { intros C. apply (Qlt_not_eq 0 (inject_Z dt)); [| symmetry; exact C].
    change 0%Q with (inject_Z 0). rewrite <- Zlt_Qlt. exact H. }
  rewrite !inject_Z_mult.
  change (inject_Z 1024) with (1024 # 1)%Q. change (inject_Z 8) with (8 # 1)%Q.
  change (inject_Z (10 ^ 6)) with (1000000 # 1)%Q.
  field. exact D.
Qed.

(** Line 109 in single precision is within 2^-20 of the exact rate. *)
Lemma send_speed_close n dt :
  0 <= n < 2 ^ 64 -> 0 < dt < 2 ^ 64 ->
  close_to (send_speed n dt) (rate n dt).
Proof.
  intros Hn Hdt.
  destruct (of_Z_correct dt Hdt) as [qd [Fd Rd]].
  pose proof (rate_spec n dt ltac:(lia)) as HT.
  assert (HD : (0 < inject_Z dt)%Q) by (change 0%Q with (inject_Z 0); rewrite <- Zlt_Qlt; lia).
  destruct (Z.eq_dec n 0) as [-> | Hn0].
  - (* nothing was sent *)
    destruct Fd as [md [ed [Ed _]]].
    exists 0%Q. split.
    + unfold send_speed. rewrite Ed. reflexivity.
    + assert (rate 0 dt == 0)%Q by (unfold rate; reflexivity).
      rewrite H. apply Qle_bool_imp_le. reflexivity.
  - destruct (of_Z_correct n ltac:(lia)) as [q0 [F0 R0]].
    destruct const_8 as [C8 V8]. destruct const_1000 as [C1000 V1000].
    destruct const_1024 as [C1024 V1024].
    destruct (mul_correct _ _ _ _ _ _ _ _ F0 C8 ltac:(lia) ltac:(lia)) as [q1 [F1 R1]].
    destruct (mul_correct _ _ _ _ _ _ _ _ F1 C1000 ltac:(lia) ltac:(lia)) as [q2 [F2 R2]].
    destruct (mul_correct _ _ _ _ _ _ _ _ F2 C1000 ltac:(lia) ltac:(lia)) as [q3 [F3 R3]].
    destruct (div_correct _ _ _ _ _ _ _ _ F3 C1024 ltac:(lia) ltac:(lia))
      as [q4 [y4 [F4 [Y4 [P4 R4]]]]].
    destruct (div_correct _ _ _ _ _ _ _ _ F4 C1024 ltac:(lia) ltac:(lia))
      as [q5 [y5 [F5 [Y5 [P5 R5]]]]].
    destruct (div_correct _ _ _ _ _ _ _ _ F5 Fd ltac:(lia) ltac:(lia))
      as [q6 [y6 [F6 [Y6 [P6 R6]]]]].
    fold (send_speed n dt) in F6.
    destruct F6 as [m [e [E [_ [_ Eq6]]]]].
    exists q6. split; [rewrite E, Eq6; reflexivity |].
    assert (HN : (0 < inject_Z n)%Q) by (change 0%Q with (inject_Z 0); rewrite <- Zlt_Qlt; lia).
    unfold rounds, ulp_half in *. change (1 # 2 ^ 24)%Q with (1 # 16777216)%Q in *.
    rewrite V8 in R1. rewrite V1000 in R2, R3. rewrite V1024 in Y4, Y5.
    set (T := rate n dt) in *. set (D := inject_Z dt) in *. set (N := inject_Z n) in *.
    (* the two products that are not by constants *)
    assert (Z1 : ((1 - (1 # 16777216)) * (y6 * D) <= y6 * qd)%Q).
    { setoid_replace ((1 - (1 # 16777216)) * (y6 * D))%Q
        with (y6 * ((1 - (1 # 16777216)) * D))%Q by ring.
      apply Qmult_le_l; [exact P6 | tauto]. }
    assert (Z2 : (y6 * qd <= (1 + (1 # 16777216)) * (y6 * D))%Q).
    { setoid_replace ((1 + (1 # 16777216)) * (y6 * D))%Q
        with (y6 * ((1 + (1 # 16777216)) * D))%Q by ring.
      apply Qmult_le_l; [exact P6 | tauto]. }
    assert (Z3 : ((1 - (1 # 16777216)) * (y6 * D) <= q6 * D)%Q).
    { setoid_replace ((1 - (1 # 16777216)) * (y6 * D))%Q
        with ((1 - (1 # 16777216)) * y6 * D)%Q by ring.
      apply Qmult_le_r; [exact HD | tauto]. }
    assert (Z4 : (q6 * D <= (1 + (1 # 16777216)) * (y6 * D))%Q).
    { setoid_replace ((1 + (1 # 16777216)) * (y6 * D))%Q
        with ((1 + (1 # 16777216)) * y6 * D)%Q by ring.
      apply Qmult_le_r; [exact HD | tauto]. }
    assert (B : ((1 - tolerance) * (T * D) <= q6 * D /\ q6 * D <= (1 + tolerance) * (T * D))%Q).
    { unfold tolerance. change (1 # 2 ^ 20)%Q with (1 # 1048576)%Q.
      set (w := (T * D)%Q) in *. set (z := (y6 * D)%Q) in *.
      set (yq := (y6 * qd)%Q) in *. set (qD := (q6 * D)%Q) in *.
      clearbody w z yq qD. split; lra. }
    destruct B as [B1 B2].
    apply Qabs_Qle_condition. unfold tolerance in *.
    change (1 # 2 ^ 20)%Q with (1 # 1048576)%Q in *.
    split.
    + assert ((1 - (1 # 1048576)) * T <= q6)%Q.
      { apply (Qmult_le_r _ _ D); [exact HD |].
        setoid_replace ((1 - (1 # 1048576)) * T * D)%Q
          with ((1 - (1 # 1048576)) * (T * D))%Q by ring. exact B1. }
      lra.
    + assert (q6 <= (1 + (1 # 1048576)) * T)%Q.
      { apply (Qmult_le_r _ _ D); [exact HD |].
        setoid_replace ((1 + (1 # 1048576)) * T * D)%Q
          with ((1 + (1 # 1048576)) * (T * D))%Q by ring. exact B2. }
      lra.
Qed.
End F32Facts.

(** ** The rate reported *)

Lemma sum_Z_all (ws : list Z) (c : Z) :
  (forall w, In w ws -> w = c) -> sum_Z ws = c * Z.of_nat (List.length ws).
Proof.
  induction ws as [|w ws IH]; intros H.
  - simpl. lia.
  - cbn [sum_Z fold_right List.length]. fold (sum_Z ws).
    rewrite IH by (intros w' Hw'; apply H; now right).
    rewrite (H w) by now left. lia.
Qed.

(** C1 as stated fails when a write is short: the report counts 2048
    bytes for a write that returned 1000.  Here the stream begins at clock
    0, the only write of the window returns 1000, and the report comes at
    clock 2000000: the rate printed is 1/128 Mbit/s, where the formula on
    the byte counts returned gives 125/32768, less than half of it. *)
Lemma rate_of_returned_bytes_counterexample :
  ~ (forall (P : provider) (fuel : nat) (b : list Z) (r : report),
        In r (client_reports (trace (test_tcp_client P fuel (init b)))) ->
        2000 * 1000 <= r_dt r ->
        close_to (r_rate r) (rate (sum_Z (r_writes r)) (r_dt r))).
Proof.
  intros H.
  specialize (H Scenario.short_write 3%nat []
                {| r_writes := [1000]; r_dt := 2000000;
                   r_rate := S754_finite false 8388608 (-30) |}).
  destruct H as [q [E C]].
  - left. vm_compute. reflexivity.
  - discriminate.
  - injection E as <-. vm_compute in C. apply C. reflexivity.
Qed.

(** The run behind it, in figures. *)
Example short_write_report :
  let r := test_tcp_client Scenario.short_write 3 (init []) in
  result r = Done (-1) /\
  client_reports (trace r) =
    [{| r_writes := [1000]; r_dt := 2000000;
        r_rate := S754_finite false 8388608 (-30) |}] /\
  (F32.F2Q 8388608 (-30) == 1 # 128)%Q /\
  (rate (sum_Z [1000%Z]) 2000000 == 125 # 32768)%Q /\
  (rate (sizeof_buf * 1)%Z 2000000 == 1 # 128)%Q.
Proof. repeat split; vm_compute; reflexivity. Qed.

(** C1, amended: every report printed by the client gives, within a
    relative error of 2^-20, the rate (n x 2048 x 8 x 10^6) / (1024 x 1024
    x dt) Mbit/s, where n is the number of writes that succeeded since the
    previous report (since the stream began, for the first report) and dt,
    at least 2000000, is the time between the clock readings of the two
    reports as the 32-bit microsecond timer measures it; the byte total
    n x 2048 is held in a [uint64_t].  This is the rate of the claim
    whenever every one of these writes returned 2048. *)
Theorem report_rate (P : provider) (fuel : nat) (b : list Z) (r : report) :
  In r (client_reports (trace (test_tcp_client P fuel (init b)))) ->
  let bytes := sizeof_buf * Z.of_nat (List.length (r_writes r)) in
  2000 * 1000 <= r_dt r < UINT32_MOD /\
  r_rate r = send_speed (u64 bytes) (r_dt r) /\
  close_to (r_rate r) (rate (u64 bytes) (r_dt r)) /\
  (bytes < UINT64_MOD -> close_to (r_rate r) (rate bytes (r_dt r))) /\
  ((forall w, In w (r_writes r) -> w = sizeof_buf) -> bytes < UINT64_MOD ->
   close_to (r_rate r) (rate (sum_Z (r_writes r)) (r_dt r))).
Proof.
  intros Hin bytes.
  pose proof (client_reports_ok P fuel (init b)) as Hall.
  rewrite Forall_forall in Hall. destruct (Hall r Hin) as [Hdt Hrate].
  fold bytes in Hrate.
  assert (Hclose : close_to (r_rate r) (rate (u64 bytes) (r_dt r))).
  { rewrite Hrate. apply F32Facts.send_speed_close.
    - apply Z.mod_pos_bound. reflexivity.
    - unfold UINT32_MOD in Hdt. split; [lia |].
      apply Z.lt_trans with (2 ^ 32); [lia | reflexivity]. }
  assert (Hsmall : bytes < UINT64_MOD -> u64 bytes = bytes).
  { intros Hb. apply Z.mod_small. split; [| exact Hb].
    subst bytes. change sizeof_buf with 2048. lia. }
  split; [exact Hdt |]. split; [exact Hrate |]. split; [exact Hclose |]. split.
  - intros Hb. rewrite <- (Hsmall Hb). exact Hclose.
  - intros Hfull Hb. rewrite (sum_Z_all _ _ Hfull). fold bytes.
    rewrite <- (Hsmall Hb). exact Hclose.
Qed.

Lemma report_rate_witness :
  let r := {| r_writes := [2048]; r_dt := 2000000;
              r_rate := S754_finite false 8388608 (-30) |} in
  In r (client_reports (trace (test_tcp_client Scenario.one_window 3 (init [])))) /\
  close_to (r_rate r) (rate (sum_Z (r_writes r)) (r_dt r)).
Proof.
  intros r.
  assert (Hin : In r (client_reports
                        (trace (test_tcp_client Scenario.one_window 3 (init [])))))
    by (left; vm_compute; reflexivity).
  split; [exact Hin |].
  destruct (report_rate Scenario.one_window 3 [] r Hin) as [_ [_ [_ [_ H]]]].
  apply H.
  - intros w [<- | []]. reflexivity.
  - reflexivity.
Defined.

(** * Further properties of the two routines *)

(** ** What each role never calls *)

Lemma stream_loop_calls_none (P : provider) (f : event -> bool) (fuel : nat) :
  (forall t, f (Ev_now t) = false) ->
  (forall fmt x, f (Ev_printf fmt x) = false) ->
  (forall d r, f (Ev_write d r) = false) ->
  (forall m, f (Ev_puts m) = false) ->
  forall v s, calls f (trace (stream_loop P fuel v s)) = 0%nat.
Proof.
  intros Hn Hp Hw Hm. induction fuel as [|fuel IH]; intros v s; [reflexivity |].
  destruct (Z.ltb_spec (write_res P (n_write s)) 0) as [H|H].
  - rewrite (stream_loop_break P fuel v s H). cbn [trace snd].
    change (Ev_now ?t :: ?l) with ([Ev_now t] ++ l).
    rewrite !calls_app, (calls_report_events f) by exact Hp.
    unfold calls. cbn [filter]. rewrite Hn, Hw, Hm. reflexivity.
  - rewrite (stream_loop_again P fuel v s H). cbn [trace snd].
    change (Ev_now ?t :: ?l) with ([Ev_now t] ++ l).
    rewrite !calls_app, (calls_report_events f) by exact Hp.
    change (Ev_write ?d ?r :: ?l) with ([Ev_write d r] ++ l).
    rewrite calls_app, IH.
    unfold calls. cbn [filter]. rewrite Hn, Hw. reflexivity.
Qed.

Lemma client_calls_none (P : provider) (f : event -> bool) (fuel : nat) (s : state) :
  (forall t, f (Ev_now t) = false) ->
  (forall fmt x, f (Ev_printf fmt x) = false) ->
  (forall d r, f (Ev_write d r) = false) ->
  (forall m, f (Ev_puts m) = false) ->
  (forall a, f (Ev_addr_from_str a) = false) ->
  (forall p r, f (Ev_connect p r) = false) ->
  f Ev_disconnect = false ->
  calls f (trace (test_tcp_client P fuel s)) = 0%nat.
Proof.
  intros Hn Hp Hw Hm Ha Hc Hd.
  assert (Pre : forall t, calls f (connected_prefix P ++ t) = calls f t).
  { intros t. rewrite calls_app. unfold connected_prefix, calls. cbn [filter].
    rewrite Ha, Hc, Hm. reflexivity. }
  destruct (Z.ltb_spec (connect_res P) 0) as [C|C].
  - rewrite (client_connect_failed P fuel s C). unfold calls. cbn [trace snd filter].
    rewrite Ha, Hc, Hm. reflexivity.
  - destruct (Z.ltb_spec (write_res P (n_write s)) 0) as [W|W].
    + rewrite (client_handshake_failed P fuel s C W). cbn [trace snd].
      rewrite Pre. unfold calls. cbn [filter]. rewrite Hw, Hm, Hd. reflexivity.
    + rewrite (client_streams P fuel s C W). cbv zeta. cbn [trace snd].
      rewrite Pre.
      change (Ev_write ?d ?r :: Ev_now ?t :: ?l) with ([Ev_write d r; Ev_now t] ++ l).
      rewrite !calls_app, (stream_loop_calls_none P f fuel Hn Hp Hw Hm).
      destruct (result _); unfold calls; cbn [filter]; rewrite Hw, Hn, ?Hd; reflexivity.
Qed.

(** X1: the client only sends.  Whatever the provider answers, and however
    long it runs, it never calls read, accept or listen: the reply that
    the echo client waited for is not read. *)
Theorem client_send_only (P : provider) (fuel : nat) (s : state) :
  calls is_read (trace (test_tcp_client P fuel s)) = 0%nat /\
  calls is_accept (trace (test_tcp_client P fuel s)) = 0%nat /\
  calls is_listen (trace (test_tcp_client P fuel s)) = 0%nat.
Proof. repeat split; apply client_calls_none; reflexivity. Qed.

Lemma server_run_calls_none (f : event -> bool) :
  (forall p q l r, f (Ev_listen p q l r) = false) ->
  (forall r, f (Ev_accept r) = false) ->
  (forall n r, f (Ev_read n r) = false) ->
  (forall m, f (Ev_puts m) = false) ->
  f Ev_disconnect = false ->
  forall t q0 q, server_run q0 t = Some q -> calls f t = 0%nat.
Proof.
  intros Hl Ha Hr Hm Hd. induction t as [|e t IH]; intros q0 q; [reflexivity |].
  cbn [server_run]. destruct (server_step q0 e) as [q1|] eqn:E; [| discriminate].
  intros R. specialize (IH _ _ R).
  change (e :: t) with ([e] ++ t). rewrite calls_app, IH.
  unfold calls. cbn [filter].
  destruct q0, e; try discriminate E; rewrite ?Hl, ?Ha, ?Hr, ?Hm, ?Hd; reflexivity.
Qed.

Lemma server_trace_observed (P : provider) (fuel : nat) (s : state) :
  exists q, server_run Idle (trace (test_tcp_server P fuel s)) = Some q.
Proof.
  destruct (Z.ltb_spec (listen_res P) 0) as [L|L].
  - rewrite (server_listen_failed P fuel s L). cbn [trace snd server_run server_step].
    replace (listen_res P <? 0) with true by (symmetry; apply Z.ltb_lt; lia).
    cbn [server_run server_step]. simpl String.eqb. cbv iota. eauto.
  - destruct (test_tcp_server_run P fuel s L) as [_ T].
    destruct (server_run Idle (trace (test_tcp_server P fuel s))); [eauto | discriminate].
Qed.

(** X2: the server only receives.  It never writes (what it reads is not
    echoed), never connects, never reads the clock and never prints a
    rate. *)
Theorem server_receive_only (P : provider) (fuel : nat) (s : state) :
  calls is_write (trace (test_tcp_server P fuel s)) = 0%nat /\
  calls is_connect (trace (test_tcp_server P fuel s)) = 0%nat /\
  calls is_now (trace (test_tcp_server P fuel s)) = 0%nat /\
  calls is_printf (trace (test_tcp_server P fuel s)) = 0%nat.
Proof.
  destruct (server_trace_observed P fuel s) as [q T].
  repeat split; apply (fun f a b c d e => server_run_calls_none f a b c d e _ _ _ T);
    reflexivity.
Qed.

(** ** How the client ends *)

(** X3: what the client returns.  It returns 1 when connect failed;
    otherwise it returns only after a write has failed, and then it
    returns the negative result of that write, its last, after the
    diagnostic and the disconnect.  It never returns 0. *)
Theorem client_return_value (P : provider) (fuel : nat) (b : list Z) (rv : Z) :
  result (test_tcp_client P fuel (init b)) = Done rv ->
  (connect_res P < 0 /\ rv = 1) \/
  (0 <= connect_res P /\ rv < 0 /\
   exists pre d,
     trace (test_tcp_client P fuel (init b)) =
     pre ++ [Ev_write d rv; Ev_puts msg_write_error; Ev_disconnect]).
Proof.
  intros H. destruct (Z.ltb_spec (connect_res P) 0) as [C|C].
  - rewrite (client_connect_failed P fuel (init b) C) in H. cbn [result fst] in H.
    injection H as <-. left. split; [exact C | reflexivity].
  - right. split; [exact C |].
    destruct (Z.ltb_spec (write_res P (n_write (init b))) 0) as [W|W].
    + rewrite (client_handshake_failed P fuel (init b) C W) in H |- *.
      cbn [result trace fst snd] in H |- *. injection H as <-.
      split; [exact W |]. exists (connected_prefix P), hello. reflexivity.
    + rewrite (client_streams P fuel (init b) C W) in H |- *. cbv zeta in H |- *.
      cbn [result trace fst snd] in H |- *.
      match goal with |- context [stream_loop P fuel ?v0 ?s0] =>
        pose proof (stream_loop_exit P fuel v0 s0) as X;
        destruct (result (stream_loop P fuel v0 s0)) as [v|]; [| discriminate]
      end.
      injection H as <-. destruct (X v eq_refl) as [Hr [pre [d E]]].
      split; [exact Hr |]. rewrite E.
      exists (connected_prefix P ++
              Ev_write hello (write_res P (n_write (init b))) ::
              Ev_now (u32 (clock P (n_now (init b)))) :: pre), d.
      rewrite <- !app_assoc. reflexivity.
Qed.

Lemma client_return_value_witness :
  result (test_tcp_client Scenario.fifth_write_fails 8 (init [])) = Done (-1) /\
  ((connect_res Scenario.fifth_write_fails < 0 /\ -1 = 1) \/
   (0 <= connect_res Scenario.fifth_write_fails /\ -1 < 0 /\
    exists pre d,
      trace (test_tcp_client Scenario.fifth_write_fails 8 (init [])) =
      pre ++ [Ev_write d (-1); Ev_puts msg_write_error; Ev_disconnect])).
Proof.
  split; [reflexivity |].
  apply (client_return_value Scenario.fifth_write_fails 8 [] (-1)). reflexivity.
Defined.

Lemma stream_loop_goes_on (P : provider) (fuel : nat) :
  forall v s,
    (forall i, (i < fuel)%nat -> 0 <= write_res P (n_write s + i)) ->
    result (stream_loop P fuel v s) = OutOfFuel /\
    calls is_write (trace (stream_loop P fuel v s)) = fuel /\
    calls (is_puts_of msg_write_error) (trace (stream_loop P fuel v s)) = 0%nat.
Proof.
  induction fuel as [|fuel IH]; intros v s Hok; [repeat split |].
  assert (H0 : 0 <= write_res P (n_write s)).
  { specialize (Hok 0%nat). rewrite Nat.add_0_r in Hok. apply Hok. lia. }
  rewrite (stream_loop_again P fuel v s H0). cbn [result trace fst snd].
  match goal with |- context [stream_loop P fuel ?v1 ?s1] =>
    destruct (IH v1 s1) as [R [W M]]
  end.
  { intros i Hi. simpl. replace (S (n_write s + i)) with (n_write s + S i)%nat by lia.
    apply Hok. lia. }
  split; [exact R |].
  change (Ev_now ?t :: ?l) with ([Ev_now t] ++ l).
  rewrite !calls_app, !calls_report_events by reflexivity.
  change (Ev_write ?d ?r :: ?l) with ([Ev_write d r] ++ l).
  rewrite !calls_app, W, M. split; reflexivity.
Qed.

(** X4: the stream has no end of its own.  As long as the writes
    succeed the client keeps writing: after a successful connect, if the
    handshake and the first n stream writes succeed, a run of n
    iterations is still going, has made these n + 1 writes, and has
    neither logged a write error nor disconnected. *)
Theorem client_streams_while_writes_succeed (P : provider) (n : nat) (b : list Z) :
  0 <= connect_res P ->
  (forall i, (i <= n)%nat -> 0 <= write_res P i) ->
  let r := test_tcp_client P n (init b) in
  result r = OutOfFuel /\
  calls is_write (trace r) = S n /\
  calls (is_puts_of msg_write_error) (trace r) = 0%nat /\
  disconnected (trace r) = 0%nat.
Proof.
  intros C Hok r.
  assert (W : 0 <= write_res P (n_write (init b))) by (simpl; apply Hok; lia).
  assert (D : result r = OutOfFuel -> disconnected (trace r) = 0%nat)
    by exact (proj2 (client_exit_disconnects P n (init b) C)).
  subst r. rewrite (client_streams P n (init b) C W) in D |- *. cbv zeta in D |- *.
  cbn [result trace fst snd] in D |- *.
  match goal with |- context [stream_loop P n ?v0 ?s0] =>
    destruct (stream_loop_goes_on P n v0 s0) as [R [Wr M]]
  end.
  { intros i Hi. simpl. apply Hok. lia. }
  rewrite R in D |- *. split; [reflexivity |].
  rewrite app_nil_r in D |- *. split; [| split; [| exact (D eq_refl)]].
  - rewrite calls_app.
    change (Ev_write ?d ?r :: Ev_now ?t :: ?l) with ([Ev_write d r; Ev_now t] ++ l).
    rewrite calls_app, Wr. reflexivity.
  - rewrite calls_app.
    change (Ev_write ?d ?r :: Ev_now ?t :: ?l) with ([Ev_write d r; Ev_now t] ++ l).
    rewrite calls_app, M. reflexivity.
Qed.

Lemma client_streams_while_writes_succeed_witness :
  0 <= connect_res Scenario2.wrapping_clock /\
  result (test_tcp_client Scenario2.wrapping_clock 4 (init [])) = OutOfFuel /\
  calls is_write (trace (test_tcp_client Scenario2.wrapping_clock 4 (init []))) = 5%nat.
Proof.
  assert (C : 0 <= connect_res Scenario2.wrapping_clock) by discriminate.
  split; [exact C |].
  destruct (client_streams_while_writes_succeed Scenario2.wrapping_clock 4 [] C)
    as [R [W _]].
  - intros i _. discriminate.
  - split; [exact R | exact W].
Defined.

(** ** The clock *)

Lemma u32_sub_u32 (a c : Z) : u32 (u32 a - u32 c) = u32 (a - c).
Proof. unfold u32. rewrite Zminus_mod_idemp_l, Zminus_mod_idemp_r. reflexivity. Qed.

(** X5: the window is measured across an overflow of the timer.  If the
    reference was read at time T1 and the clock now reads T2, times as
    they would be without the 32-bit limit, the loop head decides on
    (T2 - T1) mod 2^32: when less than 2^32 microseconds have passed it
    decides on the time that has passed, reporting exactly when this is at
    least two seconds and dividing by exactly this time, whether or not
    the timer has wrapped in between. *)
Theorem window_measured_across_overflow
        (P : provider) (v : client_vars) (s : state) (T1 T2 : Z) :
  tick1 v = u32 T1 ->
  clock P (n_now s) = T2 ->
  let r := report_check P v s in
  trace r = Ev_now (u32 T2) ::
            (if (T2 - T1) mod 2 ^ 32 >=? 2000 * 1000
             then [Ev_printf fmt_speed (send_speed (sentlen v) ((T2 - T1) mod 2 ^ 32))]
             else []) /\
  (0 <= T2 - T1 < 2 ^ 32 -> 2000 * 1000 <= T2 - T1 ->
     trace r = [Ev_now (u32 T2);
                Ev_printf fmt_speed (send_speed (sentlen v) (T2 - T1))]) /\
  (0 <= T2 - T1 < 2000 * 1000 -> trace r = [Ev_now (u32 T2)]).
Proof.
  intros H1 H2 r.
  assert (E : trace r = Ev_now (u32 T2) ::
                        (if (T2 - T1) mod 2 ^ 32 >=? 2000 * 1000
                         then [Ev_printf fmt_speed
                                 (send_speed (sentlen v) ((T2 - T1) mod 2 ^ 32))]
                         else [])).
  { subst r. rewrite report_check_eq. cbv zeta. cbn [trace snd].
    unfold report_events, report_due. rewrite H1, H2, u32_sub_u32. reflexivity. }
  split; [exact E |]. split.
  - intros B D. rewrite E, Z.mod_small by exact B.
    replace (T2 - T1 >=? 2000 * 1000) with true by (symmetry; apply Z.geb_le; exact D).
    reflexivity.
  - intros B. rewrite E, Z.mod_small by lia.
    replace (T2 - T1 >=? 2000 * 1000) with false
      by (symmetry; rewrite Z.geb_leb; apply Z.leb_gt; lia).
    reflexivity.
Qed.

Lemma window_measured_across_overflow_witness :
  let v := {| res := 2048; sentlen := 4096; tick1 := 4294967290; tick2 := 0 |} in
  let s := next_now (init []) in
  tick1 v = u32 4294967290 /\
  clock Scenario2.wrapping_clock (n_now s) = 4294967296 + 2000000 /\
  trace (report_check Scenario2.wrapping_clock v s) =
  [Ev_now 2000000; Ev_printf fmt_speed (send_speed 4096 2000006)].
Proof.
  intros v s. split; [reflexivity |]. split; [reflexivity |].
  refine (proj1 (proj2 (window_measured_across_overflow Scenario2.wrapping_clock v s
                          4294967290 (4294967296 + 2000000) eq_refl eq_refl)) _ _).
  - split; [discriminate | reflexivity].
  - discriminate.
Defined.

(** ** The rate printed is a number *)

Lemma rate_nonneg (n dt : Z) : 0 <= n -> 0 < dt -> (0 <= rate n dt)%Q.
Proof.
  intros Hn Hd. unfold rate. apply Qle_shift_div_l.
  - change 0%Q with (inject_Z 0). rewrite <- Zlt_Qlt. lia.
  - rewrite Qmult_0_l. change 0%Q with (inject_Z 0). rewrite <- Zle_Qle. lia.
Qed.

Lemma rate_pos (n dt : Z) : 0 < n -> 0 < dt -> (0 < rate n dt)%Q.
Proof.
  intros Hn Hd. unfold rate. apply Qlt_shift_div_l.
  - change 0%Q with (inject_Z 0). rewrite <- Zlt_Qlt. lia.
  - rewrite Qmult_0_l. change 0%Q with (inject_Z 0). rewrite <- Zlt_Qlt. lia.
Qed.

Lemma send_speed_zero (dt : Z) : 0 < dt < 2 ^ 64 -> send_speed 0 dt = S754_zero false.
Proof.
  intros H. destruct (F32Facts.of_Z_correct dt H) as [q [[m [e [E _]]] _]].
  unfold send_speed. rewrite E. reflexivity.
Qed.

(** X6: every rate the client prints is a number: finite (neither NaN
    nor an infinity) and not negative; it is +0 when no write of the
    window succeeded, and greater than 0 as soon as the byte count of the
    window is. *)
Theorem reported_rate_is_a_number (P : provider) (fuel : nat) (b : list Z) (r : report) :
  In r (client_reports (trace (test_tcp_client P fuel (init b)))) ->
  (exists q, F32.to_Q (r_rate r) = Some q /\ (0 <= q)%Q /\
             (0 < u64 (sizeof_buf * Z.of_nat (List.length (r_writes r))) -> (0 < q)%Q)) /\
  (r_writes r = [] -> r_rate r = S754_zero false).
Proof.
  intros Hin.
  pose proof (client_reports_ok P fuel (init b)) as Hall.
  rewrite Forall_forall in Hall. destruct (Hall r Hin) as [Hdt Hrate].
  set (bytes := u64 (sizeof_buf * Z.of_nat (List.length (r_writes r)))) in *.
  assert (Hb : 0 <= bytes < 2 ^ 64) by (apply Z.mod_pos_bound; reflexivity).
  assert (Hd : 0 < r_dt r < 2 ^ 64).
  { unfold UINT32_MOD in Hdt. split; [lia |].
    apply Z.lt_trans with (2 ^ 32); [lia | reflexivity]. }
  split.
  - destruct (F32Facts.send_speed_close bytes (r_dt r) Hb Hd) as [q [E C]].
    rewrite <- Hrate in E. exists q. split; [exact E |].
    apply Qabs_Qle_condition in C. destruct C as [C _].
    unfold tolerance in C. change (1 # 2 ^ 20)%Q with (1 # 1048576)%Q in C.
    split.
    + pose proof (rate_nonneg bytes (r_dt r) ltac:(lia) ltac:(lia)). lra.
    + intros Hp. pose proof (rate_pos bytes (r_dt r) Hp ltac:(lia)). lra.
  - intros Hw. rewrite Hrate. subst bytes. rewrite Hw. apply send_speed_zero. exact Hd.
Qed.

Lemma reported_rate_is_a_number_witness :
  let r := {| r_writes := [2048]; r_dt := 2000000;
              r_rate := S754_finite false 8388608 (-30) |} in
  In r (client_reports (trace (test_tcp_client Scenario.one_window 3 (init [])))) /\
  exists q, F32.to_Q (r_rate r) = Some q /\ (0 <= q)%Q.
Proof.
  intros r.
  assert (Hin : In r (client_reports
                        (trace (test_tcp_client Scenario.one_window 3 (init [])))))
    by (left; vm_compute; reflexivity).
  split; [exact Hin |].
  destruct (reported_rate_is_a_number Scenario.one_window 3 [] r Hin) as [[q [E [N _]]] _].
  exists q. split; [exact E | exact N].
Defined.

(** ** The server and its connection *)

Lemma drain_loop_goes_on (P : provider) (fuel : nat) :
  forall rr s,
    0 <= rr ->
    (forall i, (i < fuel)%nat -> 0 <= read_res P (n_read s + i)) ->
    result (drain_loop P fuel rr s) = OutOfFuel /\
    trace (drain_loop P fuel rr s) = drain_reads P (n_read s) fuel.
Proof.
  induction fuel as [|fuel IH]; intros rr s Hrr Hok; cbn [drain_loop drain_reads];
    (replace (rr >=? 0) with true by (symmetry; apply Z.geb_le; lia)).
  - split; reflexivity.
  - assert (H0 : (read_res P (n_read s) <? 0) = false).
    { apply Z.ltb_ge. specialize (Hok 0%nat). rewrite Nat.add_0_r in Hok. apply Hok. lia. }
    run1. rewrite H0.
    match goal with |- context [drain_loop P fuel ?r ?s1] =>
      destruct (IH r s1) as [R T]
    end.
    + apply Z.ltb_ge. exact H0.
    + intros i Hi. cbn [n_read next_read set_buf].
      replace (S (n_read s) + i)%nat with (n_read s + S i)%nat by lia. apply Hok. lia.
    + split; [exact R |]. rewrite T. reflexivity.
Qed.

Lemma calls_drain_reads (P : provider) (f : event -> bool) (k n : nat) :
  (forall l r, f (Ev_read l r) = false) -> calls f (drain_reads P k n) = 0%nat.
Proof.
  intros H. revert k. induction n as [|n IH]; intros k; [reflexivity |].
  cbn [drain_reads]. change (?e :: ?l) with ([e] ++ l). rewrite calls_app, IH.
  unfold calls. cbn [filter]. rewrite H. reflexivity.
Qed.

(** X7: only a read error ends a connection.  A read that returns 0 is
    a success like any other: if the first accept succeeds and the first
    n reads all return 0 or more, the server is still reading from that
    connection after n reads; it has accepted once and has neither logged
    a disconnection nor disconnected. *)
Theorem server_reads_until_error (P : provider) (n : nat) (b : list Z) :
  0 <= listen_res P ->
  0 <= accept_res P 0 ->
  (forall i, (i < n)%nat -> 0 <= read_res P i) ->
  let r := test_tcp_server P (S n) (init b) in
  trace r = Ev_listen 12345 SOCK_QUEUE_LEN 0 (listen_res P) :: Ev_puts msg_listening ::
            Ev_accept (accept_res P 0) :: Ev_puts msg_reading :: drain_reads P 0 n /\
  calls is_accept (trace r) = 1%nat /\
  calls is_read (trace r) = n /\
  disconnected (trace r) = 0%nat.
Proof.
  intros L A Hok r.
  assert (E : trace r =
              Ev_listen 12345 SOCK_QUEUE_LEN 0 (listen_res P) :: Ev_puts msg_listening ::
              Ev_accept (accept_res P 0) :: Ev_puts msg_reading :: drain_reads P 0 n).
  { subst r. unfold test_tcp_server. run1.
    replace (listen_res P <? 0) with false by (symmetry; apply Z.ltb_ge; lia).
    run1. cbn [server_loop]. run1. cbn [n_accept init].
    replace (accept_res P 0 <? 0) with false by (symmetry; apply Z.ltb_ge; lia).
    do 3 run1.
    destruct (drain_loop_goes_on P n 0 (next_accept (init b)) (Z.le_refl 0)) as [R T].
    { intros i Hi. apply Hok. exact Hi. }
    rewrite R, T. reflexivity. }
  split; [exact E |]. rewrite E. unfold disconnected.
  change (?a :: ?b0 :: ?c :: ?d :: drain_reads P 0 n)
    with ([a; b0; c; d] ++ drain_reads P 0 n).
  rewrite !calls_app.
  rewrite (calls_drain_reads P is_accept), (calls_drain_reads P is_disconnect)
    by reflexivity.
  split; [reflexivity |]. split; [| reflexivity].
  clear. generalize 0%nat. induction n as [|n IH]; intros k; [reflexivity |].
  cbn [drain_reads]. change (?e :: ?l) with ([e] ++ l). rewrite calls_app.
  specialize (IH (S k)). unfold calls in *. cbn [filter is_read List.length app] in *.
  lia.
Qed.

Lemma server_reads_until_error_witness :
  0 <= listen_res Scenario2.idle_peer /\
  0 <= accept_res Scenario2.idle_peer 0 /\
  calls is_accept (trace (test_tcp_server Scenario2.idle_peer 6 (init []))) = 1%nat /\
  calls is_read (trace (test_tcp_server Scenario2.idle_peer 6 (init []))) = 5%nat /\
  disconnected (trace (test_tcp_server Scenario2.idle_peer 6 (init []))) = 0%nat.
Proof.
  assert (L : 0 <= listen_res Scenario2.idle_peer) by discriminate.
  assert (A : 0 <= accept_res Scenario2.idle_peer 0) by discriminate.
  split; [exact L |]. split; [exact A |].
  destruct (server_reads_until_error Scenario2.idle_peer 5 [] L A) as [_ H].
  - intros i _. discriminate.
  - exact H.
Defined.

Lemma calls_cons (f : event -> bool) (e : event) (t : list event) :
  calls f (e :: t) = ((if f e then 1 else 0) + calls f t)%nat.
Proof. unfold calls. cbn [filter]. destruct (f e); reflexivity. Qed.

(** The books of the observer: every disconnect is paid for by a failed
    read, and every message by the answer it reports. *)
Lemma server_run_ledger (pre : list event) :
  forall q0 q, server_run q0 pre = Some q ->
    (calls is_failed_read pre + owes_disconnect q0 =
     disconnected pre + owes_disconnect q)%nat /\
    (calls (is_puts_of msg_accept_error) pre + owes_message msg_accept_error q =
     calls is_failed_accept pre + owes_message msg_accept_error q0)%nat /\
    (calls (is_puts_of msg_reading) pre + owes_message msg_reading q =
     accepted pre + owes_message msg_reading q0)%nat /\
    (calls (is_puts_of msg_disconnected) pre + owes_message msg_disconnected q =
     calls is_failed_read pre + owes_message msg_disconnected q0)%nat.
Proof.
  unfold accepted, disconnected.
  induction pre as [|e pre IH]; intros q0 q.
  - intros [= ->]. repeat split.
  - cbn [server_run]. destruct (server_step q0 e) as [q1|] eqn:E; [| discriminate].
    intros R. destruct (IH _ _ R) as [I1 [I2 [I3 I4]]]. clear IH R.
    rewrite !calls_cons.
    destruct e; try (destruct q0; discriminate E).
    + (* listen *)
      destruct q0; try discriminate E. cbn in E. injection E as <-.
      destruct (r <? 0); cbn in *; lia.
    + (* accept *)
      destruct q0; try discriminate E. cbn in E. injection E as <-.
      cbn [is_failed_read is_disconnect is_puts_of is_failed_accept is_accepted].
      rewrite (Z.leb_antisym r 0).
      destruct (r <? 0); cbn in *; lia.
    + (* read *)
      destruct q0; try discriminate E. cbn in E. injection E as <-.
      cbn [is_failed_read is_disconnect is_puts_of is_failed_accept is_accepted].
      destruct (r <? 0); cbn in *; lia.
    + (* disconnect *)
      destruct q0; try discriminate E. cbn in E. injection E as <-.
      cbn in *. lia.
    + (* puts *)
      destruct (puts_step_inv _ _ _ E) as
          [[-> [-> ->]]|[[-> [-> ->]]|[[-> [-> ->]]|[[-> [-> ->]]|[-> [-> ->]]]]]];
        cbn in *; lia.
Qed.

Lemma server_prefix_observed (P : provider) (fuel : nat) (s : state) (pre post : list event) :
  trace (test_tcp_server P fuel s) = pre ++ post ->
  exists q, server_run Idle pre = Some q.
Proof.
  intros E. destruct (server_trace_observed P fuel s) as [q T].
  rewrite E, server_run_app in T.
  destruct (server_run Idle pre) as [q1|]; [eauto | discriminate].
Qed.

(** X8: the server never drops a connection that can still be read.
    At every point of a run each disconnect made so far was preceded by a
    failed read of its own: the failed reads are the disconnects, plus at
    most the one whose disconnect is about to come. *)
Theorem server_disconnects_after_read_error
        (P : provider) (fuel : nat) (s : state) (pre post : list event) :
  trace (test_tcp_server P fuel s) = pre ++ post ->
  (disconnected pre <= calls is_failed_read pre <= S (disconnected pre))%nat.
Proof.
  intros E. destruct (server_prefix_observed P fuel s pre post E) as [q T].
  destruct (server_run_ledger pre Idle q T) as [L _]. cbn [owes_disconnect] in L.
  destruct q; cbn [owes_disconnect] in L; lia.
Qed.

Lemma server_disconnects_after_read_error_witness :
  let t := trace (test_tcp_server Scenario.flaky_accept 7 (init [])) in
  t = firstn 14 t ++ skipn 14 t /\
  calls is_failed_read (firstn 14 t) = 1%nat /\
  (disconnected (firstn 14 t) <= calls is_failed_read (firstn 14 t)
   <= S (disconnected (firstn 14 t)))%nat.
Proof.
  intros t. split; [reflexivity |]. split; [reflexivity |].
  apply (server_disconnects_after_read_error Scenario.flaky_accept 7 (init [])
           (firstn 14 t) (skipn 14 t)).
  reflexivity.
Defined.

(** X9: the server's log is a faithful count.  In the trace of any run:
    "Error accepting new sock" is logged once for each failed accept,
    "Reading data" once for each accepted connection, and "Disconnected"
    once for each failed read; and when the run is observed between two
    rounds, as many connections have been disconnected as accepted. *)
Theorem server_log_counts (P : provider) (fuel : nat) (s : state) :
  let t := trace (test_tcp_server P fuel s) in
  calls (is_puts_of msg_accept_error) t = calls is_failed_accept t /\
  calls (is_puts_of msg_reading) t = accepted t /\
  calls (is_puts_of msg_disconnected) t = calls is_failed_read t /\
  (server_run Idle t = Some Accepting -> disconnected t = accepted t).
Proof.
  intros t.
  assert (T : exists q, server_run Idle t = Some q /\
                        (q = Accepting \/ q = Draining \/ q = Terminated)).
  { subst t. destruct (Z.ltb_spec (listen_res P) 0) as [L|L].
    - rewrite (server_listen_failed P fuel s L). cbn [trace snd server_run server_step].
      replace (listen_res P <? 0) with true by (symmetry; apply Z.ltb_lt; lia).
      cbn [server_run server_step]. simpl String.eqb. cbv iota. eauto.
    - destruct (test_tcp_server_run P fuel s L) as [_ T].
      destruct (server_run Idle (trace (test_tcp_server P fuel s))) as [q|];
        [| discriminate].
      exists q. split; [reflexivity |]. destruct q; try discriminate; auto. }
  destruct T as [q [T Hq]].
  destruct (server_run_ledger t Idle q T) as [L1 [L2 [L3 L4]]].
  pose proof (server_run_balance t Idle q T) as B.
  cbn [owes_disconnect owes_message holds_connection] in *.
  assert (O : forall m, owes_message m q = 0%nat)
    by (intros m; destruct Hq as [-> | [-> | ->]]; reflexivity).
  rewrite !O in *.
  split; [lia |]. split; [lia |]. split; [lia |].
  intros Q. rewrite T in Q. injection Q as ->. cbn in B. lia.
Qed.

Lemma server_log_counts_witness :
  let t := trace (test_tcp_server Scenario2.one_client 5 (init [])) in
  server_run Idle t = Some Accepting /\
  accepted t = 1%nat /\
  disconnected t = accepted t.
Proof.
  intros t.
  assert (Q : server_run Idle t = Some Accepting) by reflexivity.
  split; [exact Q |]. split; [reflexivity |].
  exact (proj2 (proj2 (proj2 (server_log_counts Scenario2.one_client 5 (init [])))) Q).
Defined.

(** X10: the server uses a connection only while it holds it.  Every
    read and every disconnect in a run comes when exactly one accepted
    connection has not been disconnected yet: nothing is read before an
    accept has succeeded or after the disconnect, and nothing is
    disconnected twice. *)
Theorem server_uses_held_connection
        (P : provider) (fuel : nat) (s : state) (pre post : list event) (e : event) :
  trace (test_tcp_server P fuel s) = pre ++ e :: post ->
  is_read e = true \/ is_disconnect e = true ->
  accepted pre = S (disconnected pre).
Proof.
  intros E He. destruct (server_trace_observed P fuel s) as [qf T].
  rewrite E in T. destruct (server_run_split _ _ _ _ _ T) as [q1 [q2 [T1 [S1 _]]]].
  pose proof (server_run_balance pre Idle q1 T1) as B. cbn [holds_connection] in B.
  destruct e; destruct He as [He|He]; try discriminate He;
    destruct q1; try discriminate S1; cbn [holds_connection] in B; lia.
Qed.

Lemma server_uses_held_connection_witness :
  let t := trace (test_tcp_server Scenario2.one_client 5 (init [])) in
  t = firstn 8 t ++ Ev_disconnect :: skipn 9 t /\
  accepted (firstn 8 t) = S (disconnected (firstn 8 t)).
Proof.
  intros t.
  assert (E : t = firstn 8 t ++ Ev_disconnect :: skipn 9 t) by reflexivity.
  split; [exact E |].
  apply (server_uses_held_connection Scenario2.one_client 5 (init [])
           (firstn 8 t) (skipn 9 t) Ev_disconnect E).
  right. reflexivity.
Defined.

(** ** Every connection is disconnected once *)

(** A drain loop whose (m+1)-th read is the first to fail ends there,
    whatever fuel is left over. *)
Lemma drain_loop_ends (P : provider) (m : nat) :
  forall fuel rr s,
    0 <= rr ->
    (m < fuel)%nat ->
    (forall i, (i < m)%nat -> 0 <= read_res P (n_read s + i)) ->
    read_res P (n_read s + m) < 0 ->
    let r := drain_loop P fuel rr s in
    result r = Done tt /\
    trace r = drain_reads P (n_read s) m ++
              [Ev_read sizeof_buf (read_res P (n_read s + m)); Ev_puts msg_disconnected] /\
    n_accept (final r) = n_accept s /\
    n_read (final r) = (n_read s + S m)%nat.
Proof.
  induction m as [|m IH]; intros fuel rr s Hrr Hf Hok Hfail;
    (destruct fuel as [|fuel]; [lia |]); cbv zeta; cbn [drain_loop drain_reads];
    (replace (rr >=? 0) with true by (symmetry; apply Z.geb_le; lia)); run1.
  - rewrite Nat.add_0_r in Hfail |- *.
    replace (read_res P (n_read s) <? 0) with true by (symmetry; apply Z.ltb_lt; lia).
    run1. cbn [n_accept n_read next_read set_buf]. repeat split. lia.
  - assert (H0 : 0 <= read_res P (n_read s)).
    { specialize (Hok 0%nat). rewrite Nat.add_0_r in Hok. apply Hok. lia. }
    replace (read_res P (n_read s) <? 0) with false by (symmetry; apply Z.ltb_ge; lia).
    match goal with |- context [drain_loop P fuel ?r ?s1] =>
      destruct (IH fuel r s1) as [R [T [A N]]]
    end.
    + exact H0.
    + lia.
    + intros i Hi. cbn [n_read next_read set_buf].
      replace (S (n_read s) + i)%nat with (n_read s + S i)%nat by lia. apply Hok. lia.
    + cbn [n_read next_read set_buf].
      replace (S (n_read s) + m)%nat with (n_read s + S m)%nat by lia. exact Hfail.
    + cbv zeta in R, T, A, N. cbn [n_read n_accept next_read set_buf] in T, A, N.
      replace (S (n_read s) + m)%nat with (n_read s + S m)%nat in T by lia.
      rewrite R, T, A, N. repeat split. lia.
Qed.

(** The trace of a drain loop, whatever the provider answers: reads that
    succeeded, and then either the failed read with its message, or
    nothing more when the fuel is spent. *)
Lemma drain_loop_shape (P : provider) (fuel : nat) :
  forall rr s,
    0 <= rr ->
    let r := drain_loop P fuel rr s in
    exists m,
      (forall i, (i < m)%nat -> 0 <= read_res P (n_read s + i)) /\
      ((result r = OutOfFuel /\ trace r = drain_reads P (n_read s) m) \/
       (result r = Done tt /\
        read_res P (n_read s + m) < 0 /\
        trace r = drain_reads P (n_read s) m ++
                  [Ev_read sizeof_buf (read_res P (n_read s + m));
                   Ev_puts msg_disconnected] /\
        n_accept (final r) = n_accept s /\
        n_read (final r) = (n_read s + S m)%nat)).
Proof.
  induction fuel as [|fuel IH]; intros rr s Hrr; cbv zeta; cbn [drain_loop];
    (replace (rr >=? 0) with true by (symmetry; apply Z.geb_le; lia)).
  - exists 0%nat. split; [intros i Hi; lia |]. left. split; reflexivity.
  - run1. destruct (Z.ltb_spec (read_res P (n_read s)) 0) as [H|H]; run1.
    + exists 0%nat. split; [intros i Hi; lia |]. right.
      rewrite Nat.add_0_r. cbn [n_accept n_read next_read drain_reads app].
      repeat split; [exact H | lia].
    + match goal with |- context [drain_loop P fuel ?r ?s1] =>
        destruct (IH r s1 H) as [m [Hok D]]
      end.
      cbv zeta in D. cbn [n_read n_accept next_read set_buf] in Hok, D.
      exists (S m). split.
      * intros i Hi. destruct i as [|i]; [rewrite Nat.add_0_r; exact H |].
        replace (n_read s + S i)%nat with (S (n_read s) + i)%nat by lia.
        apply Hok. lia.
      * replace (n_read s + S m)%nat with (S (n_read s) + m)%nat by lia.
        cbn [drain_reads].
        destruct D as [[R T]|[R [F [T [A N]]]]]; [left | right].
        -- rewrite R, T. split; reflexivity.
        -- rewrite R, T, A, N. repeat split; [exact F | lia].
Qed.

(** A prefix of the trace that brings the observer from a drain loop back
    to the head of the accept loop contains all the reads that
    succeeded. *)
Lemma drain_reads_within (P : provider) (m : nat) :
  forall k pre post rest,
    (forall i, (i < m)%nat -> 0 <= read_res P (k + i)) ->
    pre ++ post = drain_reads P k m ++ rest ->
    server_run Draining pre = Some Accepting ->
    exists pre',
      pre = drain_reads P k m ++ pre' /\ pre' ++ post = rest /\
      server_run Draining pre' = Some Accepting.
Proof.
  induction m as [|m IH]; intros k pre post rest Hok E R; cbn [drain_reads app] in *.
  - exists pre. auto.
  - destruct pre as [|e pre]; [discriminate R |].
    cbn [app] in E. injection E as -> E.
    cbn [server_run server_step] in R.
    assert (H0 : 0 <= read_res P k).
    { specialize (Hok 0%nat). rewrite Nat.add_0_r in Hok. apply Hok. lia. }
    replace (read_res P k <? 0) with false in R by (symmetry; apply Z.ltb_ge; lia).
    destruct (IH (S k) pre post rest) as [pre' [E1 [E2 R']]]; trivial.
    + intros i Hi. replace (S k + i)%nat with (k + S i)%nat by lia. apply Hok. lia.
    + exists pre'. rewrite E1. auto.
Qed.

Lemma calls_drain_reads_read (P : provider) (k m : nat) :
  calls is_read (drain_reads P k m) = m.
Proof.
  revert k. induction m as [|m IH]; intros k; [reflexivity |].
  cbn [drain_reads]. unfold calls in *. cbn [filter is_read List.length].
  rewrite IH. reflexivity.
Qed.

Lemma calls_drain_reads_accept (P : provider) (k m : nat) :
  calls is_accept (drain_reads P k m) = 0%nat.
Proof.
  revert k. induction m as [|m IH]; intros k; [reflexivity |].
  cbn [drain_reads]. unfold calls in *. cbn [filter is_accept]. apply IH.
Qed.

(** One round of the accept loop, unfolded. *)
Lemma server_loop_unfold (P : provider) (fuel : nat) (s : state) :
  trace (server_loop P (S fuel) s) =
  Ev_accept (accept_res P (n_accept s)) ::
  (if accept_res P (n_accept s) <? 0 then
     Ev_puts msg_accept_error :: trace (server_loop P fuel (next_accept s))
   else
     Ev_puts msg_reading ::
     trace (drain_loop P fuel 0 (next_accept s)) ++
     match result (drain_loop P fuel 0 (next_accept s)) with
     | Done _ =>
         Ev_disconnect :: trace (server_loop P fuel (final (drain_loop P fuel 0 (next_accept s))))
     | OutOfFuel => []
     end).
Proof.
  cbn [server_loop]. run1.
  destruct (accept_res P (n_accept s) <? 0); run1; [reflexivity |].
  do 2 run1.
  destruct (result (drain_loop P fuel 0 (next_accept s))); run1; cbn [app].
  - rewrite <- app_assoc. reflexivity.
  - rewrite app_nil_r. reflexivity.
Qed.

(** Where a prefix of the trace of the accept loop leaves the observer at
    the head of the loop, the rest of the trace is the accept loop again,
    with one unit of fuel less for every accept made and the provider's
    counters where the prefix left them. *)
Lemma server_loop_at_head (P : provider) (fuel : nat) :
  forall s pre post,
    trace (server_loop P fuel s) = pre ++ post ->
    server_run Accepting pre = Some Accepting ->
    exists s',
      post = trace (server_loop P (fuel - calls is_accept pre) s') /\
      n_accept s' = (n_accept s + calls is_accept pre)%nat /\
      n_read s' = (n_read s + calls is_read pre)%nat.
Proof.
  induction fuel as [|fuel IH]; intros s pre post E R.
  - cbn [server_loop out_of_fuel trace snd] in E. symmetry in E. apply app_eq_nil in E.
    destruct E as [-> ->]. exists s. unfold calls. cbn. repeat split; lia.
  - destruct pre as [|e pre].
    { exists s. cbn [app] in E. unfold calls. cbn [filter List.length].
      rewrite Nat.sub_0_r, !Nat.add_0_r. auto. }
    rewrite server_loop_unfold in E.
    set (s1 := next_accept s) in *.
    cbn [app] in E. injection E as <- E.
    cbn [server_run server_step] in R.
    destruct (Z.ltb_spec (accept_res P (n_accept s)) 0) as [A|A].
    + (* the accept failed *)
      destruct pre as [|e2 pre]; [discriminate R |].
      cbn [app] in E. injection E as <- E.
      cbn [server_run server_step] in R. simpl String.eqb in R. cbv iota in R.
      destruct (IH s1 pre post E R) as [s' [E' [Na Nr]]].
      exists s'. rewrite !calls_cons. cbn [is_accept is_read].
      subst s1. cbn [n_accept n_read next_accept] in Na, Nr.
      repeat split; [exact E' | lia | lia].
    + (* a connection *)
      destruct (drain_loop_shape P fuel 0 s1 (Z.le_refl 0)) as [m [Hok D]].
      cbv zeta in D.
      change (n_read s1) with (n_read s) in *.
      change (n_accept s1) with (S (n_accept s)) in *.
      destruct pre as [|e2 pre]; [discriminate R |].
      cbn [app] in E. injection E as <- E.
      cbn [server_run server_step] in R. simpl String.eqb in R. cbv iota in R.
      destruct D as [[Rd Td]|[Rd [F [Td [Ad Nd]]]]]; rewrite Rd, Td in E.
      * symmetry in E.
        destruct (drain_reads_within P m _ _ _ _ Hok E R) as [pre' [_ [E2 R']]].
        apply app_eq_nil in E2. destruct E2 as [-> _]. discriminate R'.
      * rewrite <- app_assoc in E. symmetry in E.
        destruct (drain_reads_within P m _ _ _ _ Hok E R) as [pre' [E1 [E2 R']]].
        destruct pre' as [|e3 pre']; [discriminate R' |].
        cbn [app] in E2. injection E2 as -> E2.
        cbn [server_run server_step] in R'.
        replace (read_res P (n_read s + m) <? 0) with true in R'
          by (symmetry; apply Z.ltb_lt; lia).
        destruct pre' as [|e4 pre']; [discriminate R' |].
        cbn [app] in E2. injection E2 as -> E2.
        cbn [server_run server_step] in R'. simpl String.eqb in R'. cbv iota in R'.
        destruct pre' as [|e5 pre']; [discriminate R' |].
        cbn [app] in E2. injection E2 as -> E2.
        cbn [server_run server_step] in R'.
        symmetry in E2.
        destruct (IH _ pre' post E2 R') as [s' [E' [Na Nr]]].
        exists s'. rewrite E1.
        rewrite !calls_cons, !calls_app, !calls_cons.
        rewrite calls_drain_reads_read, calls_drain_reads_accept.
        cbn [is_accept is_read].
        rewrite Ad in Na. rewrite Nd in Nr.
        repeat split; [exact E' | lia | lia].
Qed.

(** One round of the accept loop for a connection whose (m+1)-th read is
    the first to fail. *)
Lemma server_loop_round (P : provider) (m fuel : nat) (s : state) :
  0 <= accept_res P (n_accept s) ->
  (forall i, (i < m)%nat -> 0 <= read_res P (n_read s + i)) ->
  read_res P (n_read s + m) < 0 ->
  (m + 2 <= fuel)%nat ->
  exists post,
    trace (server_loop P fuel s) =
    Ev_accept (accept_res P (n_accept s)) :: Ev_puts msg_reading ::
    drain_reads P (n_read s) m ++
    [Ev_read sizeof_buf (read_res P (n_read s + m));
     Ev_puts msg_disconnected; Ev_disconnect;
     Ev_accept (accept_res P (S (n_accept s)))] ++ post.
Proof.
  intros A Hok Hfail Hf.
  destruct fuel as [|fuel]; [lia |].
  cbn [server_loop]. run1.
  replace (accept_res P (n_accept s) <? 0) with false by (symmetry; apply Z.ltb_ge; lia).
  do 2 run1.
  destruct (drain_loop_ends P m fuel 0 (next_accept s) (Z.le_refl 0)) as [R [T [Na Nr]]];
    [lia | exact Hok | exact Hfail |].
  cbv zeta in R, T, Na, Nr. cbn [n_accept n_read next_accept] in T, Na, Nr.
  rewrite R. run1. rewrite T.
  destruct fuel as [|fuel]; [lia |].
  cbn [server_loop]. run1. rewrite Na.
  eexists. cbn [app]. rewrite <- !app_assoc. cbn [app]. reflexivity.
Qed.

(** C3: a connection that was established is disconnected exactly once on
    every way out.

    Client: whenever the routine returns after a successful connect, its
    trace holds one disconnect, as its last call (and none while the
    stream is still running); so it is when the handshake write fails,
    and when the k-th stream write fails after k - 1 successes, where the
    client makes k stream writes and no more.

    Server, for every run: a failed read is followed by the diagnostic
    and one disconnect before the next accept; at every point of the run
    the disconnects made are the connections accepted, or one fewer, and
    they are equal whenever accept is called.

    Server, from the provider's answers: wherever the run stands at the
    head of the accept loop, if the accept about to be made succeeds and
    the (m+1)-th read of that connection is the first to fail, the run
    goes on with that accept, the m + 1 reads, the diagnostic, one
    disconnect and only then the next accept, every connection accepted
    before having been disconnected.  So it is for the first connection
    of a run. *)
Theorem disconnect_exactly_once (P : provider) (fuel : nat) (b : list Z) :
  (0 <= connect_res P ->
   let r := test_tcp_client P fuel (init b) in
   (forall rv, result r = Done rv ->
      disconnected (trace r) = 1%nat /\ exists pre, trace r = pre ++ [Ev_disconnect]) /\
   (result r = OutOfFuel -> disconnected (trace r) = 0%nat) /\
   (write_res P 0 < 0 ->
      result r = Done (write_res P 0) /\
      calls is_write (trace r) = 1%nat /\ disconnected (trace r) = 1%nat) /\
   (forall k, (1 <= k <= fuel)%nat ->
      (forall i, (i < k)%nat -> 0 <= write_res P i) -> write_res P k < 0 ->
      result r = Done (write_res P k) /\
      calls is_write (trace r) = S k /\ disconnected (trace r) = 1%nat)) /\
  (let r := test_tcp_server P fuel (init b) in
   (forall pre len rr post,
      trace r = pre ++ Ev_read len rr :: post -> rr < 0 ->
      exists post',
        post = Ev_puts msg_disconnected :: Ev_disconnect :: post' /\
        (post' = [] \/ exists a post'', post' = Ev_accept a :: post'')) /\
   (forall pre post,
      trace r = pre ++ post ->
      (disconnected pre <= accepted pre <= S (disconnected pre))%nat /\
      (forall a post', post = Ev_accept a :: post' -> disconnected pre = accepted pre)) /\
   (forall pre post m,
      trace r = pre ++ post ->
      server_run Idle pre = Some Accepting ->
      0 <= accept_res P (calls is_accept pre) ->
      (forall i, (i < m)%nat -> 0 <= read_res P (calls is_read pre + i)) ->
      read_res P (calls is_read pre + m) < 0 ->
      (calls is_accept pre + m + 2 <= fuel)%nat ->
      disconnected pre = accepted pre /\
      exists post',
        post = Ev_accept (accept_res P (calls is_accept pre)) :: Ev_puts msg_reading ::
               drain_reads P (calls is_read pre) m ++
               [Ev_read sizeof_buf (read_res P (calls is_read pre + m));
                Ev_puts msg_disconnected; Ev_disconnect;
                Ev_accept (accept_res P (S (calls is_accept pre)))] ++ post') /\
   (forall m,
      0 <= listen_res P ->
      0 <= accept_res P 0 ->
      (forall i, (i < m)%nat -> 0 <= read_res P i) ->
      read_res P m < 0 ->
      (m + 2 <= fuel)%nat ->
      exists post',
        trace r =
        Ev_listen 12345 SOCK_QUEUE_LEN 0 (listen_res P) :: Ev_puts msg_listening ::
        Ev_accept (accept_res P 0) :: Ev_puts msg_reading ::
        drain_reads P 0 m ++
        [Ev_read sizeof_buf (read_res P m); Ev_puts msg_disconnected; Ev_disconnect;
         Ev_accept (accept_res P 1)] ++ post')).
Proof.
  split.
  - intros Hc r.
    destruct (client_exit_disconnects P fuel (init b) Hc) as [Hdone Hrun].
    fold r in Hdone, Hrun.
    split; [exact Hdone |]. split; [exact Hrun |]. split.
    + intros Hw. subst r.
      rewrite (client_handshake_failed P fuel (init b) Hc Hw).
      repeat split.
    + intros k Hk Hok Hfail.
      assert (H0 : 0 <= write_res P (n_write (init b))) by (simpl; apply Hok; lia).
      assert (R : result r = Done (write_res P k) /\ calls is_write (trace r) = S k).
      { subst r. rewrite (client_streams P fuel (init b) Hc H0).
        cbv zeta. cbn [result trace fst snd].
        match goal with |- context [stream_loop P fuel ?v0 ?s0] =>
          destruct (stream_loop_fails_at P (k - 1) fuel v0 s0) as [[v' [R V]] [W _]]
        end.
        - lia.
        - intros i Hi. apply Hok. simpl. lia.
        - simpl. replace (S (k - 1)) with k by lia. exact Hfail.
        - cbv zeta in R, V, W. simpl n_write in V. rewrite R. split.
          + rewrite V. do 2 f_equal. lia.
          + rewrite calls_app.
            change (Ev_write ?d ?r :: Ev_now ?t :: ?l) with ([Ev_write d r; Ev_now t] ++ l).
            rewrite !calls_app, W. unfold calls. simpl. lia. }
      destruct R as [R W]. split; [exact R |]. split; [exact W |].
      exact (proj1 (Hdone _ R)).
  - intros r.
    assert (Tr : 0 <= listen_res P ->
                 trace r =
                 Ev_listen 12345 SOCK_QUEUE_LEN 0 (listen_res P) :: Ev_puts msg_listening ::
                 trace (server_loop P fuel (init b))).
    { intros L. subst r. unfold test_tcp_server. run1.
      replace (listen_res P <? 0) with false by (symmetry; apply Z.ltb_ge; lia).
      run1. reflexivity. }
    split; [| split; [| split]].
    + (* after a failed read *)
      intros pre len rr post E Hrr.
      destruct (Z.ltb_spec (listen_res P) 0) as [L|L].
      * assert (Rd : calls is_read (trace r) = 0%nat)
          by (subst r; rewrite (server_listen_failed P fuel (init b) L); reflexivity).
        rewrite E, calls_app in Rd. unfold calls in Rd. simpl in Rd. lia.
      * destruct (test_tcp_server_run P fuel (init b) L) as [_ T].
        fold r in T. rewrite E in T.
        exact (server_closes_after_read_error _ _ _ _ _ T Hrr).
    + (* the count, at every point *)
      intros pre post E. split.
      * destruct (server_prefix_observed P fuel (init b) pre post E) as [q Q].
        pose proof (server_run_balance pre Idle q Q) as B. cbn [holds_connection] in B.
        destruct (holds_connection q); lia.
      * intros a post' ->.
        change (pre ++ Ev_accept a :: post') with (pre ++ [Ev_accept a] ++ post') in E.
        rewrite app_assoc in E.
        destruct (server_prefix_observed P fuel (init b) _ _ E) as [q' Q'].
        rewrite server_run_app in Q'.
        destruct (server_run Idle pre) as [q|] eqn:Q; [| discriminate].
        pose proof (server_run_balance pre Idle q Q) as B.
        destruct q; try discriminate Q'. cbn [holds_connection] in B. lia.
    + (* a connection, from the head of the loop *)
      intros pre post m E Q A Hok Hfail Hf.
      split.
      { pose proof (server_run_balance pre Idle Accepting Q) as B.
        cbn [holds_connection] in B. lia. }
      destruct (Z.ltb_spec (listen_res P) 0) as [L|L].
      * exfalso.
        assert (Ac : calls is_accept (trace r) = 0%nat)
          by (subst r; rewrite (server_listen_failed P fuel (init b) L); reflexivity).
        assert (Dc : disconnected (trace r) = 0%nat)
          by (subst r; rewrite (server_listen_failed P fuel (init b) L); reflexivity).
        assert (St : server_run Idle (trace r) = Some Terminated).
        { subst r. rewrite (server_listen_failed P fuel (init b) L).
          cbn [trace snd server_run server_step].
          replace (listen_res P <? 0) with true by (symmetry; apply Z.ltb_lt; lia).
          reflexivity. }
        rewrite E, server_run_app, Q in St.
        destruct post as [|e post]; [discriminate St |].
        cbn [server_run] in St.
        destruct e; try discriminate St.
        rewrite E, calls_app, calls_cons in Ac. cbn [is_accept] in Ac. lia.
      * rewrite (Tr L) in E.
        destruct pre as [|e1 pre]; [discriminate Q |].
        cbn [app] in E. injection E as <- E.
        cbn [server_run server_step] in Q.
        replace (listen_res P <? 0) with false in Q by (symmetry; apply Z.ltb_ge; lia).
        destruct pre as [|e2 pre]; [discriminate Q |].
        cbn [app] in E. injection E as <- E.
        cbn [server_run server_step] in Q. simpl String.eqb in Q. cbv iota in Q.
        rewrite !calls_cons in *. cbn [is_accept is_read Nat.add] in *.
        destruct (server_loop_at_head P fuel (init b) pre post E Q) as [s' [E' [Na Nr]]].
        cbn [n_accept n_read init Nat.add] in Na, Nr.
        rewrite <- Na, <- Nr in *.
        destruct (server_loop_round P m (fuel - n_accept s') s' A Hok Hfail) as [post' Hp];
          [lia |].
        exists post'. rewrite E'. exact Hp.
    + (* the first connection *)
      intros m L A Hok Hfail Hf.
      destruct (server_loop_round P m fuel (init b)) as [post' Hp]; trivial.
      exists post'. rewrite (Tr L), Hp. reflexivity.
Qed.

Lemma disconnect_exactly_once_witness :
  (0 <= connect_res Scenario.fifth_write_fails /\
   write_res Scenario.fifth_write_fails 5 < 0 /\
   result (test_tcp_client Scenario.fifth_write_fails 8 (init [])) = Done (-1) /\
   calls is_write (trace (test_tcp_client Scenario.fifth_write_fails 8 (init []))) = 6%nat /\
   disconnected (trace (test_tcp_client Scenario.fifth_write_fails 8 (init []))) = 1%nat) /\
  (let t := trace (test_tcp_server Scenario.flaky_accept 7 (init [])) in
   server_run Idle (firstn 8 t) = Some Accepting /\
   0 <= accept_res Scenario.flaky_accept 3 /\
   read_res Scenario.flaky_accept 2 < 0 /\
   disconnected (firstn 8 t) = accepted (firstn 8 t) /\
   exists post',
     skipn 8 t =
     [Ev_accept 0; Ev_puts msg_reading;
      Ev_read sizeof_buf 5; Ev_read sizeof_buf 5; Ev_read sizeof_buf (-1);
      Ev_puts msg_disconnected; Ev_disconnect; Ev_accept 0] ++ post').
Proof.
  split.
  - split; [discriminate |]. split; [reflexivity |].
    destruct (disconnect_exactly_once Scenario.fifth_write_fails 8 []) as [C _].
    assert (Hc : 0 <= connect_res Scenario.fifth_write_fails) by discriminate.
    destruct (C Hc) as [_ [_ [_ K]]].
    apply (K 5%nat).
    + lia.
    + intros i Hi.
      do 5 (destruct i as [|i]; [discriminate |]). lia.
    + reflexivity.
  - intros t.
    split; [reflexivity |]. split; [discriminate |]. split; [reflexivity |].
    destruct (disconnect_exactly_once Scenario.flaky_accept 7 []) as [_ [_ [_ [S _]]]].
    apply (S (firstn 8 t) (skipn 8 t) 2%nat).
    + reflexivity.
    + reflexivity.
    + discriminate.
    + intros i Hi. do 2 (destruct i as [|i]; [discriminate |]). lia.
    + reflexivity.
    + vm_compute. lia.
Defined.
